(** * Energy_Data_Visualisation: the snapshot polling and diffing core

  A shallow embedding of the data path of [Task 1/task1.py]
  ([fetch_data], [drop_na_get_final], [imbalance_sign], [plot_diff],
  [countdown_timer], [auto_update_loop]) and of [Task 2/task2.py] (the
  single-request fetchers, [prepare_wind_solar_merged] with the helpers
  it calls, [split_wind_solar], the data path of [run_part2_wind_solar],
  the ordering and colouring of the table, and [normalise_mw_column]).

  Conventions of the embedding.
  - A pandas DataFrame is the list of its rows, in row order.
  - [settlementDate] is the API's date string, [settlementPeriod] an
    integer, [publishTime_cest] an instant (seconds; the time-zone
    conversion of [convert_col_to_cest] keeps instants and their order).
  - A MW value is an exact number in [Z]; pandas' NaN / None is [None].
    Only subtraction and comparison with 0 are ever applied to values.
  - Wall-clock time is counted in whole seconds.
  - [sort_values] is called with pandas' default sort kind, which keeps
    rows with equal keys in order on short frames only.  The loop model
    uses the stable ordering; what is proved about the order of ties is
    proved for every ordering by publish time. *)

From Stdlib Require Import ZArith List Bool String Lia.
From Stdlib Require Import Sorting.Sorted Sorting.Permutation.
From Stdlib Require Import Ascii DecimalString DecimalPos DecimalZ.
Import ListNotations.

Local Open Scope Z_scope.

(* ================================================================== *)
(** ** DataFrames of forecast rows *)
(* ================================================================== *)

Module Frame.

(** The value of the [indicatedImbalance_sign] column. *)
Inductive Sign := Positive | Negative.

(** One row of the evolution feed.  [indicatedImbalance_sign] is [None]
    while that column has not been added yet. *)
Record Row := mkRow {
  settlementDate : string;
  settlementPeriod : Z;
  indicatedImbalance : option Z;
  publishTime_cest : Z;
  indicatedImbalance_sign : option Sign
}.

Definition DataFrame := list Row.

(** The group key of [drop_na_get_final]. *)
Definition key (r : Row) : string * Z := (settlementDate r, settlementPeriod r).

Definition key_eqb (a b : string * Z) : bool :=
  String.eqb (fst a) (fst b) && Z.eqb (snd a) (snd b).

Definition same_key (a b : Row) : bool := key_eqb (key a) (key b).

(** [pd.notna] on a value cell. *)
Definition notna {A} (v : option A) : bool :=
  match v with Some _ => true | None => false end.

End Frame.
Import Frame.

(* ================================================================== *)
(** ** Normalisation: [drop_na_get_final] *)
(* ================================================================== *)

Module Normalize.

(** [df.dropna(subset=["indicatedImbalance"])]. *)
Definition dropna (df : DataFrame) : DataFrame :=
  filter (fun r => notna (indicatedImbalance r)) df.

(** [sort_values("publishTime_cest")]: ascending by publish time.
    [sort_values] below is the stable ordering: rows with equal publish
    time keep their relative order.  That is what the code does on
    frames of at most 16 rows.  The call uses pandas' default sort kind,
    quicksort, which is not stable: on longer frames rows with equal
    publish time may come out in another order.  What is proved about
    the order of ties (C1, C8, section [AnySort]) is therefore stated
    over [drop_na_get_final_by], for every ordering that returns the
    rows sorted by publish time. *)
Fixpoint insert_row (x : Row) (s : DataFrame) : DataFrame :=
  match s with
  | [] => [x]
  | y :: s' =>
      if publishTime_cest x <=? publishTime_cest y
      then x :: y :: s'
      else y :: insert_row x s'
  end.

Fixpoint sort_values (df : DataFrame) : DataFrame :=
  match df with
  | [] => []
  | x :: df' => insert_row x (sort_values df')
  end.

(** [groupby(["settlementDate","settlementPeriod"]).tail(1)]: a row
    stays iff no later row of the frame is in its group; the rows that
    stay keep the frame's order. *)
Fixpoint groupby_tail1 (df : DataFrame) : DataFrame :=
  match df with
  | [] => []
  | r :: df' =>
      if existsb (same_key r) df' then groupby_tail1 df'
      else r :: groupby_tail1 df'
  end.

Definition drop_na_get_final (df : DataFrame) : DataFrame :=
  groupby_tail1 (sort_values (dropna df)).

(** The same pipeline over any other ordering of the rows, to separate
    what depends on the order of ties from what does not. *)
Definition drop_na_get_final_by (sort : DataFrame -> DataFrame) (df : DataFrame)
    : DataFrame :=
  groupby_tail1 (sort (dropna df)).

(** Position-aware readings of "the record kept for its group".
    [df = before ++ r :: after] fixes the occurrence of [r]. *)
Definition beats (strict : bool) (r x : Row) : Prop :=
  same_key x r = true -> notna (indicatedImbalance x) = true ->
  if strict then publishTime_cest x < publishTime_cest r
  else publishTime_cest x <= publishTime_cest r.

(** Latest publish time; among equals the last row of the input. *)
Definition kept_last_seen (df : DataFrame) (r : Row) : Prop :=
  exists before after,
    df = before ++ r :: after /\
    notna (indicatedImbalance r) = true /\
    Forall (beats false r) before /\
    Forall (beats true r) after.

(** Latest publish time; among equals the first row of the input
    (the tie-break as the specification words it). *)
Definition kept_first_seen (df : DataFrame) (r : Row) : Prop :=
  exists before after,
    df = before ++ r :: after /\
    notna (indicatedImbalance r) = true /\
    Forall (beats true r) before /\
    Forall (beats false r) after.

Definition le_publish (a b : Row) : Prop :=
  publishTime_cest a <= publishTime_cest b.

Definition publish_is (t : Z) (r : Row) : bool := publishTime_cest r =? t.

(** Two tied rows of one group, published at the same instant. *)
Definition tie_first : Row := mkRow "2025-12-07" 1 (Some 10) 100 None.
Definition tie_second : Row := mkRow "2025-12-07" 1 (Some 20) 100 None.
Definition tie_df : DataFrame := [tie_first; tie_second].





End Normalize.

(* ================================================================== *)
(** ** Signs and colours *)
(* ================================================================== *)

Module Signs.

(** The lambda of [imbalance_sign]: ["Positive" if x >= 0 else "Negative"].
    A NaN cell compares false and lands in the else branch. *)
Definition imbalance_sign_cell (x : option Z) : Sign :=
  match x with
  | Some v => if v >=? 0 then Positive else Negative
  | None => Negative
  end.

(** [imbalance_sign]: adds the [indicatedImbalance_sign] column. *)
Definition imbalance_sign (df : DataFrame) : DataFrame :=
  map (fun r =>
         mkRow (settlementDate r) (settlementPeriod r) (indicatedImbalance r)
               (publishTime_cest r)
               (Some (imbalance_sign_cell (indicatedImbalance r)))) df.

(** The lambda of [sign_new] / [sign_prev] in [plot_diff]:
    ["Positive" if notna(x) and x >= 0 else "Negative" if notna(x) else None]. *)
Definition diff_sign_cell (x : option Z) : option Sign :=
  if notna x && (match x with Some v => v >=? 0 | None => false end)
  then Some Positive
  else if notna x then Some Negative
  else None.

(** Task 2, the table's row colours. *)
Inductive Colour := plot_bg | ft_green_light | ft_red_light.

Definition row_color (v : option Z) : Colour :=
  match v with
  | None => plot_bg
  | Some x => if x >=? 0 then ft_green_light else ft_red_light
  end.

End Signs.

(* ================================================================== *)
(** ** The retrying fetchers *)
(* ================================================================== *)

Module Fetcher.

(** The network as the fetcher sees it: the [k]-th [rq.get] of a run
    either raises ([None]) or returns a response with a status code. *)
Definition Http := nat -> option Z.

(** A response remembers which call produced it. *)
Record Response := mkResponse { call_no : nat; status_code : Z }.

Inductive Event := Get (k : nat) | Sleep (seconds : Z).

Record Net := mkNet { calls : nat; log : list Event }.

Definition get (http : Http) (n : Net) : option Response * Net :=
  (option_map (mkResponse (calls n)) (http (calls n)),
   mkNet (S (calls n)) (log n ++ [Get (calls n)])).

Definition sleep (s : Z) (n : Net) : Net := mkNet (calls n) (log n ++ [Sleep s]).

Inductive Result (A : Type) := Ok (a : A) | ApiRequestFailed.
Arguments Ok {A} a.
Arguments ApiRequestFailed {A}.

(** The shared loop of the three fetchers:
    [while attempt <= query_attempt_count: try: ... break ...
     attempt += 1; if attempt <= query_attempt_count: time.sleep(2)].
    [body] is the [try] block; its boolean says whether it reached
    [break].  The state carries the variables that outlive an
    iteration.  [None] only when [fuel] runs out. *)
Fixpoint retry_loop {S : Type} (body : S * Net -> S * Net * bool)
    (fuel : nat) (query_attempt_count attempt : Z) (s : S * Net)
    : option (Z * (S * Net)) :=
  if attempt <=? query_attempt_count then
    match fuel with
    | O => None
    | Datatypes.S fuel' =>
        let '(s1, broke) := body s in
        if broke then Some (attempt, s1)
        else
          let attempt' := attempt + 1 in
          let s2 := if attempt' <=? query_attempt_count
                    then (fst s1, sleep 2 (snd s1)) else s1 in
          retry_loop body fuel' query_attempt_count attempt' s2
    end
  else Some (attempt, s).

Definition is_200 (r : option Response) : bool :=
  match r with Some x => status_code x =? 200 | None => false end.

(** *** Task 1: [fetch_data], two requests per attempt *)

(** The [try] block.  An exception leaves the variables assigned so far
    as they are and enters the [except] clause (no [break]). *)
Definition fetch_data_try (http : Http)
    (s : (option Response * option Response) * Net)
    : (option Response * option Response) * Net * bool :=
  let '((r1, r2), n) := s in
  match get http n with
  | (None, n1) => ((r1, r2), n1, false)
  | (Some a, n1) =>
      let n2 := sleep 1 n1 in
      match get http n2 with
      | (None, n3) => ((Some a, r2), n3, false)
      | (Some b, n3) =>
          ((Some a, Some b), n3,
           (status_code a =? 200) && (status_code b =? 200))
      end
  end.

Definition fetch_data_from (http : Http) (query_attempt_count : Z) (n0 : Net)
    : option (Z * Result (Response * Response) * Net) :=
  match retry_loop (fetch_data_try http) (Z.to_nat query_attempt_count)
                   query_attempt_count 1 ((None, None), n0) with
  | None => None
  | Some (attempt, ((r1, r2), n)) =>
      Some (attempt,
            match r1, r2 with
            | Some a, Some b =>
                if negb (status_code a =? 200) || negb (status_code b =? 200)
                then ApiRequestFailed else Ok (a, b)
            | _, _ => ApiRequestFailed
            end, n)
  end.

Definition fetch_data (http : Http) (query_attempt_count : Z) :=
  fetch_data_from http query_attempt_count (mkNet 0 []).

(** *** Task 2: [fetch_wind_solar_forecast], one request per attempt *)

Definition fetch_forecast_try (http : Http) (s : option Response * Net)
    : option Response * Net * bool :=
  let '(r, n) := s in
  match get http n with
  | (None, n1) => (r, n1, false)
  | (Some a, n1) => (Some a, n1, status_code a =? 200)
  end.

Definition fetch_wind_solar_forecast (http : Http) (query_attempt_count : Z)
    : option (Z * Result Response * Net) :=
  match retry_loop (fetch_forecast_try http) (Z.to_nat query_attempt_count)
                   query_attempt_count 1 (None, mkNet 0 []) with
  | None => None
  | Some (attempt, (r, n)) =>
      Some (attempt,
            match r with
            | Some a => if negb (status_code a =? 200)
                        then ApiRequestFailed else Ok a
            | None => ApiRequestFailed
            end, n)
  end.

(** What an attempt looks like from outside: the calls it made and
    whether every sub-request came back with status 200. *)
Definition attempt_ok2 (http : Http) (k : nat) : bool :=
  match http k, http (S k) with
  | Some a, Some b => (a =? 200) && (b =? 200)
  | _, _ => false
  end.

(** A run in which no attempt succeeds: attempt 1 gets 500 then 200,
    attempt 2 raises on its first request, attempt 3 gets 200 and then
    raises on its second request. *)
Definition http_stale : Http :=
  fun k => match k with
           | 0%nat => Some 500
           | 1%nat => Some 200
           | 3%nat => Some 200
           | _ => None
           end.

End Fetcher.

(* ================================================================== *)
(** ** The diff of two snapshots: the [merged] frame of [plot_diff] *)
(* ================================================================== *)

Module Diff.

(** [merge_on]: the two lists the code chooses between. *)
Inductive MergeOn := OnDatePeriod | OnPeriod.

(** [Series.unique()]: distinct values in order of first appearance. *)
Fixpoint unique (l : list string) : list string :=
  match l with
  | [] => []
  | x :: l' => x :: filter (fun y => negb (String.eqb x y)) (unique l')
  end.

(** [if len(prev_dates) == 1 and len(new_dates) == 1
       and prev_dates[0] == new_dates[0]]. *)
Definition choose_merge_on (prev_df new_df : DataFrame) : MergeOn :=
  let prev_dates := unique (map settlementDate prev_df) in
  let new_dates := unique (map settlementDate new_df) in
  if (Nat.eqb (List.length prev_dates) 1 && Nat.eqb (List.length new_dates) 1
      && match prev_dates, new_dates with
         | a :: _, b :: _ => String.eqb a b
         | _, _ => false
         end)%bool
  then OnDatePeriod else OnPeriod.

(** The value of the join columns of a row; the date takes part only
    under [OnDatePeriod]. *)
Definition MKey : Type := option string * Z.

Definition merge_key (on : MergeOn) (r : Row) : MKey :=
  match on with
  | OnDatePeriod => (Some (settlementDate r), settlementPeriod r)
  | OnPeriod => (None, settlementPeriod r)
  end.

Definition mkey_eqb (a b : MKey) : bool :=
  match fst a, fst b with
  | Some x, Some y => String.eqb x y
  | None, None => true
  | _, _ => false
  end && Z.eqb (snd a) (snd b).

(** A row of the merged frame: the join key and the two sides.  A side
    that found no partner is [None]: all its suffixed columns are NaN. *)
Record MergedRow := mkMerged {
  on_key : MKey;
  side_prev : option Row;
  side_new : option Row
}.

Definition matches (on : MergeOn) (a b : Row) : bool :=
  mkey_eqb (merge_key on a) (merge_key on b).

(** [prev_df.merge(new_df, on=merge_on, how="outer")]: every pair of
    rows with equal keys, then the unmatched rows of each side.  pandas
    returns the rows sorted by key; the row order is not modelled, no
    column depends on it. *)
Definition merge_outer (on : MergeOn) (prev_df new_df : DataFrame)
    : list MergedRow :=
  flat_map (fun a =>
              match filter (matches on a) new_df with
              | [] => [mkMerged (merge_key on a) (Some a) None]
              | bs => map (fun b => mkMerged (merge_key on a) (Some a) (Some b)) bs
              end) prev_df
  ++ map (fun b => mkMerged (merge_key on b) None (Some b))
         (filter (fun b => negb (existsb (fun a => matches on a b) prev_df)) new_df).

(** [merged] as [plot_diff] builds it. *)
Definition merged (prev_df new_df : DataFrame) : list MergedRow :=
  merge_outer (choose_merge_on prev_df new_df) prev_df new_df.

(** The columns of [merged]. *)
Definition indicatedImbalance_prev (m : MergedRow) : option Z :=
  match side_prev m with Some r => indicatedImbalance r | None => None end.

Definition indicatedImbalance_new (m : MergedRow) : option Z :=
  match side_new m with Some r => indicatedImbalance r | None => None end.

(** [merged["delta"] = indicatedImbalance_new - indicatedImbalance_prev];
    NaN as soon as one operand is NaN. *)
Definition delta (m : MergedRow) : option Z :=
  match indicatedImbalance_new m, indicatedImbalance_prev m with
  | Some n, Some p => Some (n - p)
  | _, _ => None
  end.

Definition sign_new (m : MergedRow) : option Sign :=
  Signs.diff_sign_cell (indicatedImbalance_new m).

Definition sign_prev (m : MergedRow) : option Sign :=
  Signs.diff_sign_cell (indicatedImbalance_prev m).

Definition prev_mask (m : MergedRow) : bool := notna (indicatedImbalance_prev m).
Definition new_mask (m : MergedRow) : bool := notna (indicatedImbalance_new m).
Definition both_mask (m : MergedRow) : bool := prev_mask m && new_mask m.

(** The four-way classification of the specification, read off the
    masks and the delta the code computes (the code itself only uses
    the masks, to pick the traces it draws).  [None] for a row with no
    value on either side. *)
Inductive Status := unchanged | changed | appeared | disappeared.

Definition status (m : MergedRow) : option Status :=
  match prev_mask m, new_mask m with
  | true, true =>
      match delta m with
      | Some 0 => Some unchanged
      | _ => Some changed
      end
  | true, false => Some disappeared
  | false, true => Some appeared
  | false, false => None
  end.

(** A snapshot as [full_run_and_plot] hands it over: every row has a
    value. *)
Definition all_valued (df : DataFrame) : Prop :=
  Forall (fun r => indicatedImbalance r <> None) df.

(** "The snapshot carries exactly one calendar date, [d]". *)
Definition single_date (d : string) (df : DataFrame) : Prop :=
  df <> [] /\ Forall (fun r => settlementDate r = d) df.

(** The merge keys of a frame under a key choice. *)
Definition keys_of (on : MergeOn) (df : DataFrame) : list MKey :=
  map (merge_key on) df.

(** The example of the specification: periods {1:100, 2:200} against
    {1:150, 2:200, 3:50}, one date. *)
Definition prev_example : DataFrame :=
  [ mkRow "2025-12-07" 1 (Some 100) 1000 (Some Positive);
    mkRow "2025-12-07" 2 (Some 200) 1000 (Some Positive) ].

Definition new_example : DataFrame :=
  [ mkRow "2025-12-07" 1 (Some 150) 2800 (Some Positive);
    mkRow "2025-12-07" 2 (Some 200) 2800 (Some Positive);
    mkRow "2025-12-07" 3 (Some 50) 2800 (Some Positive) ].

(** A snapshot with the same period on two dates: its
    (settlementDate, settlementPeriod) keys are distinct. *)
Definition two_dates : DataFrame :=
  [ mkRow "2025-12-06" 1 (Some 10) 1000 (Some Positive);
    mkRow "2025-12-07" 1 (Some 20) 1000 (Some Positive) ].

End Diff.

(* ================================================================== *)
(** ** The polling loop: [auto_update_loop] *)
(* ================================================================== *)

Module Scheduler.

Import Normalize Signs.

(** What escapes [full_run_and_plot]: the exception [fetch_data] raises
    when its attempts are spent, an error of the frame construction on a
    malformed payload, or the ValueError of [plot] on a frame without
    rows ([main_date] and [latest_publish] are NaT there, and
    [NaT.strftime] raises). *)
Inductive Exn := FetchFailure | MalformedInput | PlotValueError.

(** The [k]-th run of the fetch-and-parse part of [full_run_and_plot]:
    how many seconds it takes, and whether it raises or yields rows. *)
Inductive Outcome := Raises (e : Exn) | Rows (raw : DataFrame).
Definition Feed := nat -> nat * Outcome.

Inductive Event :=
| Fetch (k : nat)
| Countdown (seconds : Z)
| Plot (df : DataFrame)
| PlotDiff (prev_df new_df : DataFrame).

Record World := mkWorld { now : Z; runs : nat; events : list Event }.

Definition emit (e : Event) (w : World) : World :=
  mkWorld (now w) (runs w) (events w ++ [e]).

(** [full_run_and_plot]: fetch, build the frame, normalise, add the sign
    column ([create_custom_ordering] only casts the period to int), and
    with [do_plot] call [plot].  [plot] formats the latest settlement
    date and publish time of the frame for its title before it draws
    anything; on a frame without rows both are NaT and it raises. *)
Definition full_run_and_plot (feed : Feed) (do_plot : bool) (w : World)
    : (Exn + DataFrame) * World :=
  let '(d, o) := feed (runs w) in
  let w1 := mkWorld (now w + Z.of_nat d) (S (runs w))
                    (events w ++ [Fetch (runs w)]) in
  match o with
  | Raises e => (inl e, w1)
  | Rows raw =>
      let final_df := imbalance_sign (drop_na_get_final raw) in
      if do_plot then
        match final_df with
        | [] => (inl PlotValueError, w1)
        | _ :: _ => (inr final_df, emit (Plot final_df) w1)
        end
      else (inr final_df, w1)
  end.

(** [df["publishTime_cest"].max()]; NaT ([None]) on an empty frame. *)
Definition publish_max (df : DataFrame) : option Z :=
  match df with
  | [] => None
  | r :: df' => Some (fold_left Z.max (map publishTime_cest df') (publishTime_cest r))
  end.

(** [new_max_publish > prev_max_publish]; False when either is NaT. *)
Definition newer (new_max prev_max : option Z) : bool :=
  match new_max, prev_max with
  | Some n, Some p => p <? n
  | _, _ => false
  end.

Record Config := mkConfig {
  update_interval_minutes : Z;
  retry : bool;
  retry_increments : list Z
}.

(** The variables of the loop that outlive a cycle. *)
Record Store := mkStore {
  prev_df : DataFrame;
  prev_max_publish : option Z;
  update_cycle : Z
}.

(** How an iteration ends: the loop goes on, an exception leaves the
    function, or [countdown_timer] never returns. *)
Inductive Flow := Continue | Raised (e : Exn) | Hung.

(** [countdown_timer(seconds)] for [seconds >= 0]: one [time.sleep(1)]
    per second.  With a negative argument [while seconds:] never ends. *)
Definition countdown_timer (seconds : Z) (w : World) : World :=
  mkWorld (now w + seconds) (runs w) (events w ++ [Countdown seconds]).

(** The head of the loop body: [next_expected], [seconds_to_wait], and
    the countdown when it is positive.  With NaT the comparison is
    False and the check starts at once.  The clock of this model ticks
    in whole seconds, so [int(seconds_to_wait)] is [seconds_to_wait];
    [SchedulerMore.countdown_seconds] is the same computation on a
    clock that resolves microseconds. *)
Definition seconds_to_wait (cfg : Config) (st : Store) (w : World) : option Z :=
  match prev_max_publish st with
  | Some t => Some (t + 60 * update_interval_minutes cfg - now w)
  | None => None
  end.

Definition wait_for_expected (cfg : Config) (st : Store) (w : World) : World :=
  match seconds_to_wait cfg st w with
  | Some s => if s >? 0 then countdown_timer s w else w
  | None => w
  end.

Definition bump (st : Store) : Store :=
  mkStore (prev_df st) (prev_max_publish st) (update_cycle st + 1).

(** [for inc in retry_increments: ...]; the boolean is
    [retry_found_new_data]. *)
Fixpoint retry_sequence (feed : Feed) (incs : list Z) (st : Store) (w : World)
    : Flow * bool * Store * World :=
  match incs with
  | [] => (Continue, false, st, w)
  | inc :: rest =>
      if inc <? 0 then (Hung, false, st, w)
      else
        match full_run_and_plot feed false (countdown_timer inc w) with
        | (inl e, w1) => (Raised e, false, st, w1)
        | (inr new_df, w1) =>
            let new_max_publish := publish_max new_df in
            if newer new_max_publish (prev_max_publish st) then
              (Continue, true,
               mkStore new_df new_max_publish (update_cycle st),
               emit (PlotDiff (prev_df st) new_df) w1)
            else retry_sequence feed rest st w1
        end
  end.

(** One iteration of [while True]. *)
Definition cycle (cfg : Config) (feed : Feed) (st : Store) (w : World)
    : Flow * Store * World :=
  match full_run_and_plot feed false (wait_for_expected cfg st w) with
  | (inl e, w1) => (Raised e, st, w1)
  | (inr new_df, w1) =>
      let new_max_publish := publish_max new_df in
      if newer new_max_publish (prev_max_publish st) then
        (Continue,
         mkStore new_df new_max_publish (update_cycle st + 1),
         emit (PlotDiff (prev_df st) new_df) w1)
      else if negb (retry cfg) then (Continue, bump st, w1)
      else
        match retry_sequence feed (retry_increments cfg) st w1 with
        | (Continue, _, st', w2) => (Continue, bump st', w2)
        | (flow, _, st', w2) => (flow, st', w2)
        end
  end.

(** The first [n] iterations of the loop. *)
Fixpoint run_cycles (n : nat) (cfg : Config) (feed : Feed) (st : Store) (w : World)
    : Flow * Store * World :=
  match n with
  | O => (Continue, st, w)
  | S n' =>
      match cycle cfg feed st w with
      | (Continue, st', w') => run_cycles n' cfg feed st' w'
      | stopped => stopped
      end
  end.

(** [auto_update_loop], observed for [n] iterations: the initial
    snapshot, then the loop. *)
Definition auto_update_loop (n : nat) (cfg : Config) (feed : Feed) (w : World)
    : Flow * option Store * World :=
  match full_run_and_plot feed true w with
  | (inl e, w1) => (Raised e, None, w1)
  | (inr df, w1) =>
      let '(flow, st, w2) :=
        run_cycles n cfg feed (mkStore df (publish_max df) 1) w1 in
      (flow, Some st, w2)
  end.

(** The candidates a stretch of the run fetched: the rows of the runs
    [from, from + count). *)
Definition candidate (feed : Feed) (k : nat) : option DataFrame :=
  match snd (feed k) with
  | Raises _ => None
  | Rows raw => Some (imbalance_sign (drop_na_get_final raw))
  end.

Definition is_countdown (e : Event) : bool :=
  match e with Countdown _ => true | _ => false end.

(** "The [k]-th run fetched a candidate strictly newer than the store". *)
Definition hit (feed : Feed) (st : Store) (k : nat) : bool :=
  match candidate feed k with
  | Some df => newer (publish_max df) (prev_max_publish st)
  | None => false
  end.

(** The two ways a stretch of the loop, from world [w] to world [w'],
    can leave the store.  [kept]: every candidate fetched was a miss and
    the snapshot and its publish time are as before.  [replaced]: the
    last fetch was the only hit, its candidate is the new snapshot, and
    nothing but the diff follows it. *)
Definition kept (feed : Feed) (st : Store) (w : World) (st' : Store) (w' : World)
    : Prop :=
  prev_df st' = prev_df st /\
  prev_max_publish st' = prev_max_publish st /\
  (forall k, (runs w <= k < runs w')%nat -> hit feed st k = false).

Definition replaced (feed : Feed) (st : Store) (w : World) (st' : Store) (w' : World)
    : Prop :=
  exists k df,
    (runs w <= k)%nat /\ runs w' = S k /\
    candidate feed k = Some df /\
    newer (publish_max df) (prev_max_publish st) = true /\
    (forall k', (runs w <= k' < k)%nat -> hit feed st k' = false) /\
    prev_df st' = df /\ prev_max_publish st' = publish_max df /\
    exists evs, events w' = evs ++ [Fetch k; PlotDiff (prev_df st) df].

(** The components of what an iteration returns. *)
Definition flow_of (r : Flow * Store * World) : Flow := fst (fst r).
Definition store_of (r : Flow * Store * World) : Store := snd (fst r).
Definition world_of (r : Flow * Store * World) : World := snd r.

(** Fixtures: one forecast row published at second 1000, a feed that
    keeps returning it (each run takes 2 seconds), and a feed whose
    second run fails. *)
Definition raw_1000 : DataFrame := [mkRow "2025-12-07" 1 (Some 10) 1000 None].

Definition snapshot_1000 : DataFrame :=
  [mkRow "2025-12-07" 1 (Some 10) 1000 (Some Positive)].

Definition feed_same : Feed := fun _ => (2%nat, Rows raw_1000).

Definition feed_fails_second : Feed :=
  fun k => match k with
           | 1%nat => (2%nat, Raises FetchFailure)
           | _ => (2%nat, Rows raw_1000)
           end.

Definition cfg_default : Config := mkConfig 30 true [30; 60; 120].
Definition cfg_no_retry : Config := mkConfig 30 false [30; 60; 120].

Definition world_1100 : World := mkWorld 1100 0 [].

End Scheduler.

(* ================================================================== *)
(** ** The fetchers, continued *)
(* ================================================================== *)

Module FetcherMore.

Import Fetcher.

(** Task 2, [fetch_wind_solar_actuals]: the loop of
    [fetch_wind_solar_forecast], statement for statement, over another
    URL and other parameters. *)
Definition fetch_wind_solar_actuals (http : Http) (query_attempt_count : Z)
    : option (Z * Result Response * Net) :=
  match retry_loop (fetch_forecast_try http) (Z.to_nat query_attempt_count)
                   query_attempt_count 1 (None, mkNet 0 []) with
  | None => None
  | Some (attempt, (r, n)) =>
      Some (attempt,
            match r with
            | Some a => if negb (status_code a =? 200)
                        then ApiRequestFailed else Ok a
            | None => ApiRequestFailed
            end, n)
  end.

(** The log of [count] requests numbered from [first] with one
    two-second sleep between consecutive requests and none after the
    last. *)
Fixpoint paced_gets (first count : nat) : list Event :=
  match count with
  | O => []
  | S c =>
      match c with
      | O => [Get first]
      | S _ => Get first :: Sleep 2 :: paced_gets (S first) c
      end
  end.

(** "The response stored in [r] is what call [call_no] of this run
    returned, and that call has been made." *)
Definition genuine (http : Http) (n : Net) (r : option Response) : Prop :=
  forall a, r = Some a ->
            http (call_no a) = Some (status_code a) /\ (call_no a < calls n)%nat.

End FetcherMore.

(* ================================================================== *)
(** ** The polling loop, continued *)
(* ================================================================== *)

Module SchedulerMore.

Import Normalize Signs Scheduler.

(** The two [divmod]s of [countdown_timer]: hours, minutes, seconds of
    the time left, as printed. *)
Definition countdown_display (seconds : Z) : Z * Z * Z :=
  let mins := seconds / 60 in
  let secs := seconds mod 60 in
  let hours := mins / 60 in
  let mins := mins mod 60 in
  (hours, mins, secs).

(** [countdown_timer]: [while seconds: ...; time.sleep(1); seconds -= 1].
    The result lists what is displayed, one entry per one-second sleep.
    [None] only when [fuel] runs out. *)
Fixpoint countdown_loop (fuel : nat) (seconds : Z) : option (list (Z * Z * Z)) :=
  if seconds =? 0 then Some []
  else
    match fuel with
    | O => None
    | S fuel' =>
        match countdown_loop fuel' (seconds - 1) with
        | Some shown => Some (countdown_display seconds :: shown)
        | None => None
        end
    end.

(** Publish times in the order the loop compares them; NaT is only
    comparable with itself. *)
Definition publish_le (a b : option Z) : Prop :=
  match a, b with
  | Some x, Some y => x <= y
  | None, None => True
  | _, _ => False
  end.

(** What [full_run_and_plot] hands over: every row has a value and the
    sign of that value, no two rows share a (settlementDate,
    settlementPeriod) key, and the rows are in publish order. *)
Definition snapshot_ok (df : DataFrame) : Prop :=
  Forall (fun r => exists v, indicatedImbalance r = Some v /\
                             indicatedImbalance_sign r
                             = Some (if v >=? 0 then Positive else Negative)) df /\
  NoDup (map key df) /\
  StronglySorted le_publish df.

Definition is_plot_diff (e : Event) : bool :=
  match e with PlotDiff _ _ => true | _ => false end.

Definition cfg_negative_delay : Config := mkConfig 30 true [-5; 60].

(** The head of the loop body on a clock that resolves microseconds,
    as [dt.datetime.now] does.  [next_expected] and [now] are counted in
    microseconds; [seconds_to_wait] is the float
    [(next_expected - now).total_seconds()], and the countdown, started
    when that is positive, lasts [int(seconds_to_wait)] seconds: the
    fraction of a second is cut off.  [None]: no countdown.  The float
    carries the difference exactly as long as it is below 2^53
    nanoseconds. *)
Definition countdown_seconds (next_expected_us now_us : Z) : option Z :=
  let seconds_to_wait_us := next_expected_us - now_us in
  if seconds_to_wait_us >? 0 then Some (Z.quot seconds_to_wait_us 1000000)
  else None.

End SchedulerMore.

(* ================================================================== *)
(** ** The traces of [plot_diff] *)
(* ================================================================== *)

Module DiffMore.

Import Diff.

(** [merged["sign_prev"] == "Positive"], element by element; a null sign
    equals neither label. *)
Definition sign_is (s : option Sign) (label : Sign) : bool :=
  match s, label with
  | Some Positive, Positive => true
  | Some Negative, Negative => true
  | _, _ => false
  end.

Definition prev_positive_mask (m : MergedRow) : bool :=
  prev_mask m && sign_is (sign_prev m) Positive.
Definition prev_negative_mask (m : MergedRow) : bool :=
  prev_mask m && sign_is (sign_prev m) Negative.
Definition new_positive_mask (m : MergedRow) : bool :=
  new_mask m && sign_is (sign_new m) Positive.
Definition new_negative_mask (m : MergedRow) : bool :=
  new_mask m && sign_is (sign_new m) Negative.

(** The dotted line between the old and the new point of a row:
    [for _, row in merged[both_mask].iterrows():
       if pd.notna(prev) and pd.notna(new):
         color = ft_green if row["delta"] > 0 else ft_red].
    [None]: no line is drawn for the row. *)
Inductive LineColour := ft_green | ft_red.

Definition line_color (m : MergedRow) : option LineColour :=
  if both_mask m then
    if notna (indicatedImbalance_prev m) && notna (indicatedImbalance_new m)
    then Some (match delta m with
               | Some d => if d >? 0 then ft_green else ft_red
               | None => ft_red
               end)
    else None
  else None.

End DiffMore.

(* ================================================================== *)
(** ** Task 2: forecast against actual generation *)
(* ================================================================== *)

Module Task2.

(** The labels [map_psr_to_fuel] returns. *)
Inductive Fuel := Solar | Wind.

(** A row of either feed as [prepare_wind_solar_merged] uses it.
    [psrType] is ASCII text or missing; [quantity] may be NaN;
    [startTime_cest] is an instant. *)
Record GenRow := mkGen {
  settlementDate : string;
  settlementPeriod : Z;
  psrType : option string;
  quantity : option Z;
  startTime_cest : Z
}.

(** [str.lower()] and the substring test [needle in hay]. *)
Definition lower_char (c : ascii) : ascii :=
  let n := nat_of_ascii c in
  if (Nat.leb 65 n && Nat.leb n 90)%bool then ascii_of_nat (n + 32) else c.

Fixpoint lower (s : string) : string :=
  match s with
  | EmptyString => EmptyString
  | String c s' => String (lower_char c) (lower s')
  end.

Fixpoint contains (needle hay : string) : bool :=
  (String.prefix needle hay
   || match hay with
      | EmptyString => false
      | String _ hay' => contains needle hay'
      end)%bool.

Definition map_psr_to_fuel (psr : option string) : option Fuel :=
  match psr with
  | None => None
  | Some text =>
      let psr_lower := lower text in
      if contains "solar" psr_lower then Some Solar
      else if contains "wind" psr_lower then Some Wind
      else None
  end.

(** [add_fuel_column]: the rows with a fuel label, labelled, in order. *)
Record FuelRow := mkFuelRow { base : GenRow; fuel : Fuel }.

Definition label_row (r : GenRow) : list FuelRow :=
  match map_psr_to_fuel (psrType r) with
  | Some f => [mkFuelRow r f]
  | None => []
  end.

Definition add_fuel_column (df : list GenRow) : list FuelRow :=
  flat_map label_row df.

(** [group_cols = ["settlementDate", "settlementPeriod", "fuel"]]. *)
Definition GKey : Type := string * Z * Fuel.

Definition gkey (r : FuelRow) : GKey :=
  (settlementDate (base r), settlementPeriod (base r), fuel r).

Definition fuel_eqb (a b : Fuel) : bool :=
  match a, b with
  | Solar, Solar | Wind, Wind => true
  | _, _ => false
  end.

Definition gkey_eqb (a b : GKey) : bool :=
  (String.eqb (fst (fst a)) (fst (fst b))
   && Z.eqb (snd (fst a)) (snd (fst b))
   && fuel_eqb (snd a) (snd b))%bool.

(** The order of the labels as strings: "Solar" < "Wind". *)
Definition fuel_compare (a b : Fuel) : comparison :=
  match a, b with
  | Solar, Wind => Lt
  | Wind, Solar => Gt
  | _, _ => Eq
  end.

(** Row order by (settlementDate, settlementPeriod, fuel), as [groupby]
    sorts its groups, and by (settlementDate, fuel, settlementPeriod), as
    the final [sort_values] does. *)
Definition leb_date_period_fuel (a b : GKey) : bool :=
  match String.compare (fst (fst a)) (fst (fst b)) with
  | Lt => true
  | Gt => false
  | Eq =>
      match Z.compare (snd (fst a)) (snd (fst b)) with
      | Lt => true
      | Gt => false
      | Eq => match fuel_compare (snd a) (snd b) with Gt => false | _ => true end
      end
  end.

Definition leb_date_fuel_period (a b : GKey) : bool :=
  match String.compare (fst (fst a)) (fst (fst b)) with
  | Lt => true
  | Gt => false
  | Eq =>
      match fuel_compare (snd a) (snd b) with
      | Lt => true
      | Gt => false
      | Eq => Z.leb (snd (fst a)) (snd (fst b))
      end
  end.

(** Sorting by a key; rows with equal keys keep their order. *)
Fixpoint insert_by {A K : Type} (leb : K -> K -> bool) (f : A -> K)
    (x : A) (l : list A) : list A :=
  match l with
  | [] => [x]
  | y :: l' => if leb (f x) (f y) then x :: y :: l' else y :: insert_by leb f x l'
  end.

Fixpoint sort_by {A K : Type} (leb : K -> K -> bool) (f : A -> K) (l : list A)
    : list A :=
  match l with
  | [] => []
  | x :: l' => insert_by leb f x (sort_by leb f l')
  end.

(** The distinct keys of a frame, in order of first appearance. *)
Fixpoint distinct (l : list GKey) : list GKey :=
  match l with
  | [] => []
  | k :: l' => k :: filter (fun k' => negb (gkey_eqb k k')) (distinct l')
  end.

(** [groupby(group_cols, as_index=False).agg({MW: "sum",
    "startTime_cest": "min"})]: one row per group, groups in key order;
    the sum skips NaN (an all-NaN group sums to 0). *)
Record Agg := mkAgg { agg_key : GKey; agg_MW : Z; agg_start : Z }.

Definition group_of (k : GKey) (rows : list FuelRow) : list FuelRow :=
  filter (fun r => gkey_eqb (gkey r) k) rows.

Definition sum_MW (rows : list FuelRow) : Z :=
  fold_right (fun r acc => match quantity (base r) with
                           | Some q => q + acc
                           | None => acc
                           end) 0 rows.

(** [sum_MW] adds exactly.  The column the code adds up is int64 or
    float64; its sums are these sums as long as the magnitudes of the
    quantities of the frame add up to less than 2^53, which bounds every
    sum formed on the way, in whatever order. *)
Definition abs_total (rows : list FuelRow) : Z :=
  fold_right (fun r acc => match quantity (base r) with
                           | Some q => Z.abs q + acc
                           | None => acc
                           end) 0 rows.

(** The total of a numeric column of a frame. *)
Definition column_sum {X : Type} (f : X -> Z) (l : list X) : Z :=
  fold_right (fun x acc => f x + acc) 0 l.

Definition min_start (rows : list FuelRow) : Z :=
  match map (fun r => startTime_cest (base r)) rows with
  | [] => 0
  | t :: ts => fold_left Z.min ts t
  end.

Definition groupby_agg (rows : list FuelRow) : list Agg :=
  map (fun k => mkAgg k (sum_MW (group_of k rows)) (min_start (group_of k rows)))
      (sort_by leb_date_period_fuel (fun k => k) (distinct (map gkey rows))).

(** A row of the frame [prepare_wind_solar_merged] returns. *)
Record MergedGen := mkMergedGen {
  group : GKey;
  forecast_MW : Z;
  actual_MW : Z;
  startTime_cest_forecast : Z;
  startTime_cest_actual : Z;
  diff_MW : Z
}.

(** [forecast_agg.merge(actuals_agg, on=group_cols, how="inner")] and
    [merged["diff_MW"] = merged["actual_MW"] - merged["forecast_MW"]]. *)
Definition merge_inner (forecast_agg actuals_agg : list Agg) : list MergedGen :=
  flat_map (fun f =>
              map (fun a => mkMergedGen (agg_key f) (agg_MW f) (agg_MW a)
                                        (agg_start f) (agg_start a)
                                        (agg_MW a - agg_MW f))
                  (filter (fun a => gkey_eqb (agg_key f) (agg_key a)) actuals_agg))
           forecast_agg.

Definition prepare_wind_solar_merged (forecast_df actuals_df : list GenRow)
    : list MergedGen :=
  sort_by leb_date_fuel_period group
          (merge_inner (groupby_agg (add_fuel_column forecast_df))
                       (groupby_agg (add_fuel_column actuals_df))).

(** [split_wind_solar]: ([df_wind], [df_solar]). *)
Definition split_wind_solar (merged_df : list MergedGen)
    : list MergedGen * list MergedGen :=
  (filter (fun m => fuel_eqb (snd (group m)) Wind) merged_df,
   filter (fun m => fuel_eqb (snd (group m)) Solar) merged_df).

(** The data path of [run_part2_wind_solar]: periods 47-48 of the
    previous day's responses, periods 1-46 of the current day's. *)
Definition local_day (df_prev df_curr : list GenRow) : list GenRow :=
  filter (fun r => Z.eqb (settlementPeriod r) 47 || Z.eqb (settlementPeriod r) 48)%bool
         df_prev
  ++ filter (fun r => Z.leb 1 (settlementPeriod r) && Z.leb (settlementPeriod r) 46)%bool
            df_curr.

Definition run_part2_wind_solar
    (df_fore_prev df_fore_curr df_act_prev df_act_curr : list GenRow)
    : list MergedGen * list MergedGen :=
  split_wind_solar
    (prepare_wind_solar_merged (local_day df_fore_prev df_fore_curr)
                               (local_day df_act_prev df_act_curr)).

(** *** The order of settlement periods *)

(** [str(sp)] of an integer. *)
Definition str (z : Z) : string := NilZero.string_of_int (Z.to_int z).

(** [settlement_period_order()] of Task 2 and the [order_str] of
    [create_custom_ordering] of Task 1: 47, 48, 1, ..., 46 as strings. *)
Definition settlement_period_order : list string :=
  map str ([47; 48] ++ map Z.of_nat (seq 1 46)).

(** [order_index = {sp: i for i, sp in enumerate(order)}] looked up at a
    label: the last position holding the label. *)
Fixpoint order_index (order : list string) (label : string) : option nat :=
  match order with
  | [] => None
  | sp :: rest =>
      match order_index rest label with
      | Some i => Some (S i)
      | None => if String.eqb sp label then Some O else None
      end
  end.

(** [df["settlementPeriod_str"].map(order_index).fillna(len(order))]. *)
Definition sp_sort_key (settlementPeriod : Z) : Z :=
  match order_index settlement_period_order (str settlementPeriod) with
  | Some i => Z.of_nat i
  | None => Z.of_nat (List.length settlement_period_order)
  end.

(** The place of a period in the local day, counted from 0: 47 and 48
    first, then 1 to 46; 48 for anything else. *)
Definition sp_sort_key_closed (p : Z) : Z :=
  if p =? 47 then 0
  else if p =? 48 then 1
  else if (1 <=? p) && (p <=? 46) then p + 1
  else 48.

(** [plot_forecast_vs_actual_with_table] up to the figure: nothing is
    drawn for an empty frame, a [ValueError] is raised for an unknown
    [x_axis], and otherwise the rows are drawn in the order of the chosen
    axis. *)
Inductive PlotOutcome := NoData | ValueError | Drawn (rows : list MergedGen).

Definition plot_forecast_vs_actual_with_table
    (df : list MergedGen) (x_axis : string) : PlotOutcome :=
  match df with
  | [] => NoData
  | _ :: _ =>
      if negb (String.eqb x_axis "settlementPeriod"
               || String.eqb x_axis "startTime_cest")%bool
      then ValueError
      else if String.eqb x_axis "settlementPeriod"
      then Drawn (sort_by Z.leb (fun m => sp_sort_key (snd (fst (group m)))) df)
      else Drawn (sort_by Z.leb startTime_cest_forecast df)
  end.

(** [normalise_mw_column] on the columns of a frame, each a name with
    its data: the first of the candidate names that is a column is
    renamed to [new_col_name]; [None] is the [KeyError] raised when no
    candidate is a column. *)
Definition candidates : list string := ["quantity"; "generation"; "value"]%string.

Definition normalise_mw_column {C : Type} (df : list (string * C))
    (new_col_name : string) : option (list (string * C)) :=
  match find (fun c => existsb (String.eqb c) (map fst df)) candidates with
  | None => None
  | Some src_col =>
      Some (if negb (String.eqb src_col new_col_name)
            then map (fun col => (if String.eqb (fst col) src_col
                                  then new_col_name else fst col, snd col)) df
            else df)
  end.

(** Fixtures: one period with two wind units and one solar unit in the
    forecast; the actuals lack a solar quantity and carry a fuel the
    code does not know. *)
Definition forecast_example : list GenRow :=
  [ mkGen "2025-11-11" 1 (Some "Wind Onshore") (Some 100) 3600;
    mkGen "2025-11-11" 1 (Some "Wind Offshore") (Some 50) 3600;
    mkGen "2025-11-11" 1 (Some "Solar") (Some 20) 3600 ]%string.

Definition actuals_example : list GenRow :=
  [ mkGen "2025-11-11" 1 (Some "WIND ONSHORE") (Some 120) 3600;
    mkGen "2025-11-11" 1 (Some "Solar") None 3600;
    mkGen "2025-11-11" 1 (Some "Hydro") (Some 7) 3600;
    mkGen "2025-11-11" 2 (Some "Solar") (Some 5) 5400 ]%string.

End Task2.

(* ================================================================== *)
(** * Properties *)
(* ================================================================== *)

Module FrameFacts.

Lemma key_eqb_eq a b : key_eqb a b = true <-> a = b.
Proof.
  destruct a as [d p], b as [d' p']; unfold key_eqb; simpl.
  rewrite andb_true_iff, String.eqb_eq, Z.eqb_eq.
  split; [intros [-> ->]; reflexivity | intros H; inversion H; auto].
Qed.

Lemma same_key_eq a b : same_key a b = true <-> key a = key b.
Proof. apply key_eqb_eq. Qed.

Lemma same_key_sym a b : same_key a b = same_key b a.
Proof.
  destruct (same_key a b) eqn:E, (same_key b a) eqn:E'; auto.
  - apply same_key_eq in E. symmetry in E. apply same_key_eq in E. congruence.
  - apply same_key_eq in E'. symmetry in E'. apply same_key_eq in E'. congruence.
Qed.

Lemma notna_true {A} (v : option A) : notna v = true <-> v <> None.
Proof. destruct v; simpl; split; congruence. Qed.

(** No later row in the group, as a statement on keys. *)
Lemma existsb_same_key_false r l :
  existsb (same_key r) l = false <-> ~ In (key r) (map key l).
Proof.
  split.
  - intros E H. apply in_map_iff in H. destruct H as (x & Hk & Hx).
    assert (existsb (same_key r) l = true); [|congruence].
    apply existsb_exists. exists x. split; auto.
    apply same_key_eq. auto.
  - intros H. destruct (existsb (same_key r) l) eqn:E; auto.
    exfalso. apply H. apply existsb_exists in E. destruct E as (x & Hx & Hk).
    apply same_key_eq in Hk. rewrite Hk. apply in_map. exact Hx.
Qed.

(** Splitting a list at an element of one of its filters. *)
Lemma filter_split {A} (p : A -> bool) (l f1 f2 : list A) (r : A) :
  filter p l = f1 ++ r :: f2 ->
  exists l1 l2, l = l1 ++ r :: l2 /\ filter p l1 = f1 /\ filter p l2 = f2.
Proof.
  revert f1. induction l as [|a l IH]; intros f1 H; simpl in H.
  - destruct f1; discriminate.
  - destruct (p a) eqn:E.
    + destruct f1 as [|b f1]; simpl in H.
      * inversion H; subst. exists [], l. simpl. auto.
      * inversion H; subst. destruct (IH f1 H2) as (l1 & l2 & -> & <- & <-).
        exists (b :: l1), l2. simpl. rewrite E. auto.
    + destruct (IH f1 H) as (l1 & l2 & -> & <- & <-).
      exists (a :: l1), l2. simpl. rewrite E. auto.
Qed.

End FrameFacts.

Module NormalizeFacts.

Import Normalize FrameFacts.

(** *** The sort: a stable, sorted rearrangement *)

Lemma in_insert_row x y s : In y (insert_row x s) <-> y = x \/ In y s.
Proof.
  induction s as [|z s IH]; simpl.
  - intuition.
  - destruct (publishTime_cest x <=? publishTime_cest z); simpl; intuition.
Qed.

Lemma in_sort_values y df : In y (sort_values df) <-> In y df.
Proof.
  induction df as [|x df IH]; simpl; [tauto|].
  rewrite in_insert_row, IH. intuition.
Qed.

Lemma insert_row_sorted x s :
  StronglySorted le_publish s -> StronglySorted le_publish (insert_row x s).
Proof.
  induction 1 as [|y s Hs IH Hy]; simpl.
  - repeat constructor.
  - destruct (publishTime_cest x <=? publishTime_cest y) eqn:E.
    + apply Z.leb_le in E. constructor; [constructor; auto|].
      constructor; [exact E|].
      eapply Forall_impl; [|exact Hy]. unfold le_publish. intros; lia.
    + apply Z.leb_gt in E. constructor; [exact IH|].
      apply Forall_forall. intros z Hz. apply in_insert_row in Hz.
      destruct Hz as [->|Hz].
      * unfold le_publish; lia.
      * rewrite Forall_forall in Hy. auto.
Qed.

Lemma sort_values_sorted df : StronglySorted le_publish (sort_values df).
Proof.
  induction df; simpl; [constructor | apply insert_row_sorted; assumption].
Qed.

Lemma insert_row_stable t x s :
  filter (publish_is t) (insert_row x s)
  = if publish_is t x then x :: filter (publish_is t) s
    else filter (publish_is t) s.
Proof.
  induction s as [|y s IH]; simpl.
  - destruct (publish_is t x); reflexivity.
  - destruct (publishTime_cest x <=? publishTime_cest y) eqn:E; simpl.
    + destruct (publish_is t x); reflexivity.
    + rewrite IH. apply Z.leb_gt in E. unfold publish_is in *.
      destruct (publishTime_cest x =? t) eqn:Ex;
        destruct (publishTime_cest y =? t) eqn:Ey; try reflexivity.
      apply Z.eqb_eq in Ex, Ey. lia.
Qed.

(** Stability: rows published at the same instant keep their order. *)
Lemma sort_values_stable t df :
  filter (publish_is t) (sort_values df) = filter (publish_is t) df.
Proof.
  induction df as [|x df IH]; simpl; [reflexivity|].
  rewrite insert_row_stable, IH. reflexivity.
Qed.

Lemma sort_values_of_sorted df :
  StronglySorted le_publish df -> sort_values df = df.
Proof.
  induction 1 as [|x df Hs IH Hx]; simpl; [reflexivity|].
  rewrite IH. destruct df as [|y df]; simpl; [reflexivity|].
  inversion Hx as [|? ? Hxy _]; subst. unfold le_publish in Hxy.
  apply Z.leb_le in Hxy. rewrite Hxy. reflexivity.
Qed.

Lemma sorted_split s1 r s2 :
  StronglySorted le_publish (s1 ++ r :: s2) ->
  Forall (fun x => publishTime_cest x <= publishTime_cest r) s1 /\
  Forall (fun x => publishTime_cest r <= publishTime_cest x) s2.
Proof.
  induction s1 as [|a s1 IH]; simpl; intros H; inversion H; subst.
  - split; [constructor | assumption].
  - destruct (IH H2) as [H1 H1']. split; [|assumption].
    constructor; [|assumption].
    rewrite Forall_forall in H3. apply (H3 r). apply in_elt.
Qed.

(** *** Keeping the last row of every group *)

Lemma in_groupby_tail1 r s :
  In r (groupby_tail1 s) <->
  exists s1 s2, s = s1 ++ r :: s2 /\ existsb (same_key r) s2 = false.
Proof.
  induction s as [|a s IH]; simpl.
  - split; [tauto | intros (s1 & s2 & H & _); destruct s1; discriminate].
  - destruct (existsb (same_key a) s) eqn:E.
    + rewrite IH. split.
      * intros (s1 & s2 & -> & H). exists (a :: s1), s2. auto.
      * intros (s1 & s2 & H & H'). destruct s1 as [|b s1]; simpl in H;
          inversion H; subst; [congruence|]. eauto.
    + simpl. rewrite IH. split.
      * intros [->|(s1 & s2 & -> & H)]; [exists [], s; auto|].
        exists (a :: s1), s2. auto.
      * intros (s1 & s2 & H & H'). destruct s1 as [|b s1]; simpl in H;
          inversion H; subst; [auto|]. right. eauto.
Qed.

Lemma groupby_tail1_incl r s : In r (groupby_tail1 s) -> In r s.
Proof.
  intros H. apply in_groupby_tail1 in H. destruct H as (s1 & s2 & -> & _).
  apply in_elt.
Qed.

Lemma groupby_tail1_keys k s :
  In k (map key (groupby_tail1 s)) <-> In k (map key s).
Proof.
  induction s as [|a s IH]; simpl; [tauto|].
  destruct (existsb (same_key a) s) eqn:E; simpl; rewrite IH; [|tauto].
  split; [auto|]. intros [<-|H]; [|exact H].
  apply existsb_exists in E. destruct E as (x & Hx & Hk).
  apply same_key_eq in Hk. rewrite Hk. apply in_map. exact Hx.
Qed.

Lemma groupby_tail1_NoDup s : NoDup (map key (groupby_tail1 s)).
Proof.
  induction s as [|a s IH]; simpl; [constructor|].
  destruct (existsb (same_key a) s) eqn:E; [exact IH|].
  simpl. constructor; [|exact IH].
  rewrite groupby_tail1_keys. apply existsb_same_key_false. exact E.
Qed.

Lemma groupby_tail1_of_NoDup s :
  NoDup (map key s) -> groupby_tail1 s = s.
Proof.
  induction s as [|a s IH]; simpl; intros H; [reflexivity|].
  inversion H; subst.
  apply existsb_same_key_false in H2. rewrite H2, IH; auto.
Qed.

Lemma groupby_tail1_sorted s :
  StronglySorted le_publish s -> StronglySorted le_publish (groupby_tail1 s).
Proof.
  induction 1 as [|a s Hs IH Ha]; simpl; [constructor|].
  destruct (existsb (same_key a) s); [exact IH|].
  constructor; [exact IH|].
  rewrite Forall_forall in *. intros x Hx. apply Ha.
  apply groupby_tail1_incl. exact Hx.
Qed.

(** *** Which row of a group survives *)

(** On a frame without NaN values, under the stable ordering (the one
    the code leaves on frames of at most 16 rows): the survivor of a
    group is its latest-published row, and the last of those in frame
    order. *)
Lemma in_tail1_sort r V :
  In r (groupby_tail1 (sort_values V)) <->
  exists l1 l2,
    V = l1 ++ r :: l2 /\
    (forall x, In x l1 -> same_key x r = true ->
               publishTime_cest x <= publishTime_cest r) /\
    (forall x, In x l2 -> same_key x r = true ->
               publishTime_cest x < publishTime_cest r).
Proof.
  set (t := publishTime_cest r).
  assert (Ht : publish_is t r = true) by apply Z.eqb_refl.
  pose proof (sort_values_sorted V) as Hsorted.
  rewrite in_groupby_tail1. split.
  - intros (s1 & s2 & HS & Hlast).
    rewrite HS in Hsorted. apply sorted_split in Hsorted.
    destruct Hsorted as [Hs1 Hs2]. rewrite Forall_forall in Hs1, Hs2.
    pose proof (sort_values_stable t V) as Hst.
    rewrite HS, filter_app in Hst. simpl in Hst. rewrite Ht in Hst.
    symmetry in Hst. apply filter_split in Hst.
    destruct Hst as (l1 & l2 & HV & Hf1 & Hf2).
    assert (Hno : forall x, In x s2 -> same_key x r = true -> False).
    { intros x Hx Hk. rewrite same_key_sym in Hk.
      assert (existsb (same_key r) s2 = true); [|congruence].
      apply existsb_exists. eauto. }
    assert (Hlate : forall x, In x V -> same_key x r = true ->
                              publishTime_cest x <= t).
    { intros x Hx Hk. apply (proj2 (in_sort_values x V)) in Hx. rewrite HS in Hx.
      apply in_app_or in Hx. destruct Hx as [Hx|[<-|Hx]].
      - apply Hs1; auto.
      - reflexivity.
      - exfalso; eauto. }
    exists l1, l2. split; [exact HV|]. split.
    + intros x Hx Hk. apply Hlate; auto. rewrite HV. apply in_or_app; auto.
    + intros x Hx Hk.
      assert (publishTime_cest x <= t).
      { apply Hlate; auto. rewrite HV. apply in_or_app; simpl; auto. }
      destruct (Z.eq_dec (publishTime_cest x) t) as [E|E]; [|fold t; lia].
      exfalso. apply (Hno x); auto.
      assert (In x (filter (publish_is t) l2)) as Hin.
      { apply filter_In. split; auto. apply Z.eqb_eq. exact E. }
      rewrite Hf2 in Hin. apply filter_In in Hin. tauto.
  - intros (l1 & l2 & -> & Hl1 & Hl2).
    pose proof (sort_values_stable t (l1 ++ r :: l2)) as Hst.
    rewrite filter_app in Hst. simpl in Hst. rewrite Ht in Hst.
    apply filter_split in Hst.
    destruct Hst as (s1 & s2 & HS & Hf1 & Hf2).
    exists s1, s2. split; [exact HS|].
    rewrite HS in Hsorted. apply sorted_split in Hsorted.
    destruct Hsorted as [_ Hs2]. rewrite Forall_forall in Hs2.
    destruct (existsb (same_key r) s2) eqn:E; [exfalso|reflexivity].
    apply existsb_exists in E. destruct E as (x & Hx & Hk).
    rewrite same_key_sym in Hk. pose proof (Hs2 x Hx) as Hge. fold t in Hge.
    destruct (Z.eq_dec (publishTime_cest x) t) as [E|E].
    + assert (In x (filter (publish_is t) s2)) as Hin.
      { apply filter_In. split; auto. apply Z.eqb_eq. exact E. }
      rewrite Hf2 in Hin. apply filter_In in Hin. destruct Hin as [Hin _].
      specialize (Hl2 x Hin Hk). fold t in Hl2. lia.
    + assert (In x (sort_values (l1 ++ r :: l2))) as Hin.
      { rewrite HS. apply in_or_app. simpl. auto. }
      apply (proj1 (in_sort_values x _)) in Hin. apply in_app_or in Hin.
      destruct Hin as [Hin|[<-|Hin]].
      * specialize (Hl1 x Hin Hk). fold t in Hl1. lia.
      * apply E. reflexivity.
      * specialize (Hl2 x Hin Hk). fold t in Hl2. lia.
Qed.

Lemma dropna_valued df : Forall (fun r => notna (indicatedImbalance r) = true) (dropna df).
Proof. apply Forall_forall. intros r H. apply filter_In in H. tauto. Qed.

Lemma dropna_of_valued df :
  Forall (fun r => notna (indicatedImbalance r) = true) df -> dropna df = df.
Proof.
  unfold dropna. induction 1 as [|r df Hr _ IH]; simpl; [reflexivity|].
  rewrite Hr, IH. reflexivity.
Qed.

(** The same on the input frame, under the stable ordering. *)
Lemma in_final_iff r df :
  In r (drop_na_get_final df) <-> kept_last_seen df r.
Proof.
  unfold drop_na_get_final, kept_last_seen. rewrite in_tail1_sort. split.
  - intros (l1 & l2 & HV & Hl1 & Hl2).
    assert (Hr : notna (indicatedImbalance r) = true).
    { assert (In r (dropna df)) as Hin by (rewrite HV; apply in_elt).
      apply filter_In in Hin. tauto. }
    apply filter_split in HV. destruct HV as (d1 & d2 & -> & <- & <-).
    exists d1, d2. repeat split; auto; apply Forall_forall; intros x Hx Hk Hv.
    + apply Hl1; auto. apply filter_In. auto.
    + apply Hl2; auto. apply filter_In. auto.
  - intros (d1 & d2 & -> & Hr & H1 & H2).
    rewrite Forall_forall in H1, H2.
    exists (dropna d1), (dropna d2). unfold dropna at 1.
    rewrite filter_app. simpl. rewrite Hr. split; [reflexivity|].
    split; intros x Hx Hk; apply filter_In in Hx; destruct Hx as [Hx Hv].
    + apply (H1 x Hx Hk Hv).
    + apply (H2 x Hx Hk Hv).
Qed.

Lemma final_keys k df :
  In k (map key (drop_na_get_final df)) <->
  exists r, In r df /\ indicatedImbalance r <> None /\ key r = k.
Proof.
  unfold drop_na_get_final. rewrite groupby_tail1_keys, in_map_iff. split.
  - intros (r & Hk & Hr). apply (proj1 (in_sort_values r _)), filter_In in Hr.
    exists r. rewrite <- notna_true. tauto.
  - intros (r & Hr & Hv & Hk). exists r. split; [exact Hk|].
    apply in_sort_values, filter_In. rewrite notna_true. tauto.
Qed.

Lemma final_valued df :
  Forall (fun r => notna (indicatedImbalance r) = true) (drop_na_get_final df).
Proof.
  apply Forall_forall. intros r H.
  apply groupby_tail1_incl, (proj1 (in_sort_values r _)), filter_In in H. tauto.
Qed.

(** *** What does not depend on the order of ties *)

Section AnySort.

Variable sort : DataFrame -> DataFrame.
Hypothesis sort_perm : forall df, Permutation (sort df) df.
Hypothesis sort_sorted : forall df, StronglySorted le_publish (sort df).

Lemma any_sort_in x df : In x (sort df) <-> In x df.
Proof.
split; apply Permutation_in; [|symmetry]; apply sort_perm.
Qed.

(** Whatever the order of ties, a kept row is a valued row of the input
    and no valued row of its group was published later. *)
Lemma any_sort_keeps_latest r df :
In r (drop_na_get_final_by sort df) ->
In r df /\ notna (indicatedImbalance r) = true /\
forall x, In x df -> same_key x r = true ->
          notna (indicatedImbalance x) = true ->
          publishTime_cest x <= publishTime_cest r.
Proof.
unfold drop_na_get_final_by. intros H.
assert (Hin : In r (dropna df))
  by (apply any_sort_in, groupby_tail1_incl; exact H).
apply filter_In in Hin. destruct Hin as [Hin Hv].
split; [exact Hin|]. split; [exact Hv|].
intros x Hx Hk Hxv.
apply in_groupby_tail1 in H. destruct H as (s1 & s2 & HS & Hlast).
pose proof (sort_sorted (dropna df)) as Hs. rewrite HS in Hs.
apply sorted_split in Hs. destruct Hs as [Hs1 _]. rewrite Forall_forall in Hs1.
assert (In x (sort (dropna df))) as Hxs
  by (apply any_sort_in, filter_In; auto).
rewrite HS in Hxs. apply in_app_or in Hxs. destruct Hxs as [Hxs|[<-|Hxs]].
- apply Hs1. exact Hxs.
- reflexivity.
- exfalso. rewrite same_key_sym in Hk.
  assert (existsb (same_key r) s2 = true); [|congruence].
  apply existsb_exists. eauto.
Qed.

Lemma any_sort_keys k df :
In k (map key (drop_na_get_final_by sort df)) <->
exists r, In r df /\ indicatedImbalance r <> None /\ key r = k.
Proof.
unfold drop_na_get_final_by. rewrite groupby_tail1_keys, in_map_iff. split.
- intros (r & Hk & Hr). apply any_sort_in, filter_In in Hr.
  exists r. rewrite <- notna_true. tauto.
- intros (r & Hr & Hv & Hk). exists r. split; [exact Hk|].
  apply any_sort_in, filter_In. rewrite notna_true. tauto.
Qed.


End AnySort.

Lemma insert_row_perm x s : Permutation (insert_row x s) (x :: s).
Proof.
induction s as [|y s IH]; simpl; [reflexivity|].
destruct (publishTime_cest x <=? publishTime_cest y); [reflexivity|].
rewrite IH. apply perm_swap.
Qed.

Lemma sort_values_perm df : Permutation (sort_values df) df.
Proof.
induction df as [|x df IH]; simpl; [reflexivity|].
rewrite insert_row_perm. constructor. exact IH.
Qed.

(** The model's sort is one of the orderings covered by [AnySort]. *)
Lemma final_latest_in_group r df :
In r (drop_na_get_final df) ->
In r df /\ notna (indicatedImbalance r) = true /\
forall x, In x df -> same_key x r = true ->
          notna (indicatedImbalance x) = true ->
          publishTime_cest x <= publishTime_cest r.
Proof.
apply (any_sort_keeps_latest sort_values sort_values_perm sort_values_sorted).
Qed.

(** C1, as stated, fails: of two rows of a group that share the latest
    publish time the first-seen one is dropped and the second is the
    one the normaliser keeps. *)
Lemma C1_first_seen_refuted :
  kept_first_seen tie_df tie_first /\
  drop_na_get_final tie_df = [tie_second] /\
  ~ kept_first_seen tie_df tie_second.
Proof.
  split; [|split; [reflexivity|]].
  - exists [], [tie_second]. repeat split; auto.
    constructor; [|constructor]. intros _ _. simpl. lia.
  - intros (before & after & Hdf & _ & Hb & _).
    destruct before as [|a before]; [discriminate Hdf|].
    injection Hdf as <- _.
    inversion Hb as [|? ? Hbeat _]; subst.
    specialize (Hbeat eq_refl eq_refl). simpl in Hbeat. lia.
Qed.

(** *** An ordering that does not keep ties in place *)





(** C1, amended: after the rows without a value are dropped, the
    normaliser keeps exactly one row per (settlementDate,
    settlementPeriod) group, a row of the group with the latest publish
    time; among rows of the group sharing that time it is the one the
    sort by publish time leaves last, which is not always the first-seen
    one.  This holds for every ordering [sort] that returns the rows
    sorted by publish time, whatever it does with ties:
    - a row is kept iff it is the last row of its group in the sorted
      frame;
    - a kept row is a valued row of the input, and no valued row of its
      group was published later;
    - the kept rows have distinct keys, and their keys are the keys that
      occur with a value in the input. *)
Theorem C1_keeps_a_latest_row
    (sort : DataFrame -> DataFrame)
    (sort_perm : forall l, Permutation (sort l) l)
    (sort_sorted : forall l, StronglySorted le_publish (sort l))
    (df : DataFrame) :
  (forall r, In r (drop_na_get_final_by sort df) <->
             exists s1 s2, sort (dropna df) = s1 ++ r :: s2 /\
                           existsb (same_key r) s2 = false) /\
  (forall r, In r (drop_na_get_final_by sort df) ->
             In r df /\ notna (indicatedImbalance r) = true /\
             forall x, In x df -> same_key x r = true ->
                       notna (indicatedImbalance x) = true ->
                       publishTime_cest x <= publishTime_cest r) /\
  NoDup (map key (drop_na_get_final_by sort df)) /\
  (forall k, In k (map key (drop_na_get_final_by sort df)) <->
             exists r, In r df /\ indicatedImbalance r <> None /\ key r = k).
Proof.
  split; [intros r; apply in_groupby_tail1|].
  split; [intros r; apply any_sort_keeps_latest; assumption|].
  split; [apply groupby_tail1_NoDup|].
  intros k. apply any_sort_keys. assumption.
Qed.

(** C1 at the two tied rows, ordered as the code orders a short frame. *)
Lemma C1_witness :
  (forall l, Permutation (sort_values l) l) /\
  (forall l, StronglySorted le_publish (sort_values l)) /\
  drop_na_get_final_by sort_values tie_df = [tie_second] /\
  NoDup (map key (drop_na_get_final_by sort_values tie_df)).
Proof.
  split; [exact sort_values_perm|].
  split; [exact sort_values_sorted|].
  split; [reflexivity|].
  exact (proj1 (proj2 (proj2
    (C1_keeps_a_latest_row sort_values sort_values_perm sort_values_sorted tie_df)))).
Defined.




(** With the stable ordering the second pass changes nothing at all. *)
Lemma stable_sort_idempotent x :
  drop_na_get_final (drop_na_get_final x) = drop_na_get_final x.
Proof.
  unfold drop_na_get_final at 1.
  rewrite (dropna_of_valued _ (final_valued x)).
  rewrite sort_values_of_sorted.
  - apply groupby_tail1_of_NoDup, groupby_tail1_NoDup.
  - apply groupby_tail1_sorted, sort_values_sorted.
Qed.

End NormalizeFacts.

Module FetcherFacts.

Import Fetcher.

(** The loop always ends: [query_attempt_count] iterations of fuel are
    enough from [attempt = 1]. *)
Lemma retry_loop_total {S : Type} (body : S * Net -> S * Net * bool) fuel N :
  forall attempt s,
    (Z.to_nat (N + 1 - attempt) <= fuel)%nat ->
    retry_loop body fuel N attempt s <> None.
Proof.
  induction fuel as [|fuel IH]; intros attempt s Hfuel; simpl.
  - destruct (attempt <=? N) eqn:E; [|discriminate].
    apply Z.leb_le in E. lia.
  - destruct (attempt <=? N) eqn:E; [|discriminate].
    destruct (body s) as [s1 broke]. destruct broke; [discriminate|].
    apply IH. apply Z.leb_le in E. lia.
Qed.

Lemma fetch_data_total http N : fetch_data http N <> None.
Proof.
  unfold fetch_data, fetch_data_from.
  destruct (retry_loop _ _ _ _ _) as [[att [[r1 r2] n]]|] eqn:E; [discriminate|].
  exfalso. revert E. apply retry_loop_total. lia.
Qed.

Lemma fetch_wind_solar_forecast_total http N :
  fetch_wind_solar_forecast http N <> None.
Proof.
  unfold fetch_wind_solar_forecast.
  destruct (retry_loop _ _ _ _ _) as [[att [r n]]|] eqn:E; [discriminate|].
  exfalso. revert E. apply retry_loop_total. lia.
Qed.

(** *** The single-request fetcher keeps the contract *)

Lemma forecast_try_spec http r n r1 n1 broke :
  is_200 r = false ->
  fetch_forecast_try http (r, n) = (r1, n1, broke) ->
  calls n1 = S (calls n) /\
  if broke
  then exists a, r1 = Some a /\ status_code a = 200 /\
                 call_no a = calls n /\ http (calls n) = Some 200
  else is_200 r1 = false.
Proof.
  unfold fetch_forecast_try, get. intros Hr.
  destruct (http (calls n)) as [c|] eqn:Ec; simpl; intros H; inversion H; subst.
  - split; [reflexivity|]. destruct (c =? 200) eqn:E.
    + apply Z.eqb_eq in E. subst c. eexists; repeat split; reflexivity.
    + simpl. exact E.
  - auto.
Qed.

(** Loop invariant of [fetch_wind_solar_forecast]: outside a [break],
    [r] never holds a 200 response. *)
Lemma forecast_loop_spec http fuel N :
  forall attempt r n att' r' n',
    is_200 r = false ->
    retry_loop (fetch_forecast_try http) fuel N attempt (r, n)
    = Some (att', (r', n')) ->
    (exists a, r' = Some a /\ status_code a = 200 /\
               http (call_no a) = Some 200 /\
               calls n' = S (call_no a) /\ att' <= N)
    \/ (is_200 r' = false /\ N < att' /\
        Z.of_nat (calls n') = Z.of_nat (calls n) + Z.max 0 (N + 1 - attempt)).
Proof.
  induction fuel as [|fuel IH]; intros attempt r n att' r' n' Hr;
    cbn [retry_loop];
    destruct (attempt <=? N) eqn:E; try discriminate;
    try (apply Z.leb_gt in E; intros H; inversion H; subst; right;
         repeat split; auto; lia).
  apply Z.leb_le in E.
  destruct (fetch_forecast_try http (r, n)) as [[r1 n1] broke] eqn:Eb.
  apply forecast_try_spec in Eb; [|exact Hr]. destruct Eb as [Hc Hb].
  destruct broke.
  - destruct Hb as (a & -> & Hs & Hn & Hh).
    intros H; inversion H; subst. left. exists a.
    rewrite Hn. repeat split; auto.
  - intros H.
    assert (exists n2, calls n2 = calls n1 /\
              retry_loop (fetch_forecast_try http) fuel N (attempt + 1) (r1, n2)
              = Some (att', (r', n'))) as (n2 & Hn2 & H2).
    { cbn [fst snd] in H.
      destruct (attempt + 1 <=? N); eexists; split; try exact H; reflexivity. }
    apply IH in H2; [|exact Hb].
    destruct H2 as [H2|(H1 & H2 & H3)]; [left; exact H2|right].
    repeat split; auto. lia.
Qed.

(** [fetch_wind_solar_forecast] returns a response only from the call
    that got 200, which is then its last call; otherwise it raises after
    exactly [query_attempt_count] calls. *)
Lemma forecast_contract http N att res n :
  fetch_wind_solar_forecast http N = Some (att, res, n) ->
  (exists a, res = Ok a /\ http (call_no a) = Some 200 /\
             calls n = S (call_no a) /\ att <= N)
  \/ (res = ApiRequestFailed /\ N < att /\
      Z.of_nat (calls n) = Z.max 0 N).
Proof.
  unfold fetch_wind_solar_forecast.
  destruct (retry_loop _ _ _ _ _) as [[att' [r' n']]|] eqn:E; [|discriminate].
  intros H; inversion H; subst. clear H.
  apply forecast_loop_spec in E; [|reflexivity].
  destruct E as [(a & -> & Hs & Hh & Hc & Ha)|(Hr & Ha & Hc)].
  - left. exists a. rewrite Hs. simpl. auto.
  - right. simpl in Hc. replace (N + 1 - 1) with N in Hc by lia.
    repeat split; auto.
    destruct r' as [a|]; auto. simpl in Hr. rewrite Hr. reflexivity.
Qed.

(** *** What the two-request fetcher does keep *)

Lemma retry_loop_invariant {S : Type} (body : S * Net -> S * Net * bool)
    (I : S -> Prop) fuel N :
  (forall s n s1 n1 b, I s -> body (s, n) = (s1, n1, b) -> I s1) ->
  forall attempt s n att' s' n',
    I s ->
    retry_loop body fuel N attempt (s, n) = Some (att', (s', n')) ->
    I s'.
Proof.
  intros Hbody. induction fuel as [|fuel IH]; intros attempt s n att' s' n' Hs;
    cbn [retry_loop]; destruct (attempt <=? N); try discriminate;
    try (intros H; inversion H; subst; exact Hs).
  destruct (body (s, n)) as [[s1 n1] broke] eqn:Eb.
  pose proof (Hbody _ _ _ _ _ Hs Eb) as Hs1.
  destruct broke; [intros H; inversion H; subst; exact Hs1|].
  cbn [fst snd]. destruct (attempt + 1 <=? N); apply IH; exact Hs1.
Qed.

(** When no request is ever answered with 200, [fetch_data] raises. *)
Lemma fetch_data_raises_without_200 http N att res n :
  (forall k, http k <> Some 200) ->
  fetch_data http N = Some (att, res, n) ->
  res = ApiRequestFailed.
Proof.
  intros Hno. unfold fetch_data, fetch_data_from.
  destruct (retry_loop _ _ _ _ _) as [[att' [[r1 r2] n']]|] eqn:E; [|discriminate].
  intros H; inversion H; subst. clear H.
  apply (retry_loop_invariant _ (fun s => is_200 (fst s) = false /\ is_200 (snd s) = false))
    in E; [| |split; reflexivity].
  - simpl in E. destruct E as [E1 E2].
    destruct r1 as [a|], r2 as [b|]; try reflexivity.
    simpl in E1. rewrite E1. reflexivity.
  - clear E. intros [p1 p2] m [s1 s2] n1 b [H1 H2]. simpl in H1, H2.
    unfold fetch_data_try, get.
    assert (Hget : forall k, is_200 (option_map (mkResponse k) (http k)) = false).
    { intros k. pose proof (Hno k) as Hk.
      destruct (http k) as [c|]; simpl; [|reflexivity].
      destruct (c =? 200) eqn:Ec; [|reflexivity].
      apply Z.eqb_eq in Ec. congruence. }
    pose proof (Hget (calls m)) as G1.
    destruct (option_map (mkResponse (calls m)) (http (calls m))) as [a|] eqn:Ea.
    + cbn [sleep calls]. pose proof (Hget (S (calls m))) as G2.
      destruct (option_map (mkResponse (S (calls m))) (http (S (calls m)))) as [c|];
        intros H; inversion H; subst; simpl; auto.
    + intros H; inversion H; subst; simpl; auto.
Qed.

(** *** The two-request fetcher does not *)

(** C2 fails on [fetch_data]: with three attempts that all fail, the
    call does not raise; it returns the first response of attempt 3
    paired with the second response of attempt 1. *)
Theorem C2_fetch_data_mixes_attempts :
  fetch_data http_stale 3
  = Some (4, Ok (mkResponse 3 200, mkResponse 1 200),
          mkNet 5 [Get 0; Sleep 1; Get 1; Sleep 2; Get 2; Sleep 2;
                   Get 3; Sleep 1; Get 4])
  /\ (forall k, attempt_ok2 http_stale k = false).
Proof.
  split; [reflexivity|].
  intros k. do 5 (destruct k as [|k]; [reflexivity|]). reflexivity.
Qed.

(** On the same responses the single-request fetcher raises. *)
Lemma forecast_on_failures :
  fetch_wind_solar_forecast (fun k => match http_stale k with
                                      | Some 200 => Some 500
                                      | o => o
                                      end) 3
  = Some (4, ApiRequestFailed,
          mkNet 3 [Get 0; Sleep 2; Get 1; Sleep 2; Get 2]).
Proof. reflexivity. Qed.

End FetcherFacts.

Module DiffFacts.

Import Diff FrameFacts.

Lemma filter_nil {A} (p : A -> bool) l :
  filter p l = [] <-> forall x, In x l -> p x = false.
Proof.
  induction l as [|a l IH]; simpl; [tauto|].
  destruct (p a) eqn:E.
  - split; [discriminate|]. intros H. specialize (H a (or_introl eq_refl)).
    congruence.
  - rewrite IH. split; [intros H x [<-|Hx]; auto | auto].
Qed.

(** *** Choosing the merge key *)

Lemma in_unique y l : In y (unique l) <-> In y l.
Proof.
  induction l as [|x l IH]; simpl; [tauto|].
  rewrite filter_In, IH, negb_true_iff.
  destruct (String.eqb_spec x y); intuition congruence.
Qed.

Lemma unique_singleton l d :
  unique l = [d] <-> l <> [] /\ Forall (fun x => x = d) l.
Proof.
  split.
  - intros H. split; [intros ->; discriminate|].
    apply Forall_forall. intros x Hx. apply (proj2 (in_unique x l)) in Hx.
    rewrite H in Hx. destruct Hx as [<-|[]]. reflexivity.
  - intros [Hne Hall]. destruct l as [|x l]; [congruence|].
    inversion Hall; subst. simpl. f_equal.
    apply filter_nil. intros y Hy. apply (proj1 (in_unique y l)) in Hy.
    rewrite Forall_forall in H2. rewrite (H2 y Hy).
    rewrite String.eqb_refl. reflexivity.
Qed.

Lemma single_date_unique d df :
  single_date d df <-> unique (map settlementDate df) = [d].
Proof.
  rewrite unique_singleton. unfold single_date. rewrite Forall_map.
  destruct df; simpl; intuition congruence.
Qed.

Lemma choose_merge_on_iff prev_df new_df :
  choose_merge_on prev_df new_df = OnDatePeriod <->
  exists d, single_date d prev_df /\ single_date d new_df.
Proof.
  unfold choose_merge_on. setoid_rewrite single_date_unique.
  destruct (unique (map settlementDate prev_df)) as [|a [|a' pd]];
    destruct (unique (map settlementDate new_df)) as [|b [|b' nd]]; simpl;
    try (split; [discriminate | intros (d & H1 & H2); discriminate]).
  destruct (String.eqb_spec a b) as [->|Hab].
  - split; eauto.
  - split; [discriminate|]. intros (d & H1 & H2). congruence.
Qed.

Lemma mkey_eqb_eq a b : mkey_eqb a b = true <-> a = b.
Proof.
  destruct a as [[x|] p], b as [[y|] q]; unfold mkey_eqb; simpl;
    rewrite ?andb_true_iff, ?String.eqb_eq, ?Z.eqb_eq;
    split; intros H; try (destruct H; subst; reflexivity);
    try (inversion H; auto); try (destruct H; discriminate).
Qed.

(** C4: the diff joins on (settlementDate, settlementPeriod) exactly
    when both snapshots carry one and the same single date, and on
    settlementPeriod alone in every other case. *)
Theorem C4_merge_key_selection (prev_df new_df : DataFrame) :
  ((exists d, single_date d prev_df /\ single_date d new_df) ->
   choose_merge_on prev_df new_df = OnDatePeriod) /\
  (~ (exists d, single_date d prev_df /\ single_date d new_df) ->
   choose_merge_on prev_df new_df = OnPeriod) /\
  (forall a b, matches OnDatePeriod a b = true <->
               settlementDate a = settlementDate b /\
               settlementPeriod a = settlementPeriod b) /\
  (forall a b, matches OnPeriod a b = true <->
               settlementPeriod a = settlementPeriod b).
Proof.
  split; [apply choose_merge_on_iff|]. split.
  - intros H. destruct (choose_merge_on prev_df new_df) eqn:E; [|reflexivity].
    apply choose_merge_on_iff in E. contradiction.
  - split; intros a b; unfold matches; rewrite mkey_eqb_eq; simpl;
      split; intros H; try (inversion H; auto); try (destruct H; congruence).
Qed.

(** *** The outer join *)

Lemma in_merge_outer on P N m :
  In m (merge_outer on P N) <->
  (exists a b, In a P /\ In b N /\ matches on a b = true /\
               m = mkMerged (merge_key on a) (Some a) (Some b))
  \/ (exists a, In a P /\ (forall b, In b N -> matches on a b = false) /\
                m = mkMerged (merge_key on a) (Some a) None)
  \/ (exists b, In b N /\ (forall a, In a P -> matches on a b = false) /\
                m = mkMerged (merge_key on b) None (Some b)).
Proof.
  unfold merge_outer. rewrite in_app_iff, in_flat_map, in_map_iff. split.
  - intros [(a & Ha & Hm)|(b & Hm & Hb)].
    + destruct (filter (matches on a) N) as [|b0 bs] eqn:F.
      * destruct Hm as [<-|[]]. right; left. exists a.
        rewrite filter_nil in F. auto.
      * apply in_map_iff in Hm. destruct Hm as (b & <- & Hb).
        rewrite <- F in Hb. apply filter_In in Hb. left. exists a, b. tauto.
    + apply filter_In in Hb. destruct Hb as [Hb Hno].
      apply negb_true_iff in Hno. right; right. exists b.
      repeat split; auto. intros a Ha.
      destruct (matches on a b) eqn:E; auto.
      assert (existsb (fun a => matches on a b) P = true); [|congruence].
      apply existsb_exists. eauto.
  - intros [(a & b & Ha & Hb & Hab & ->)|[(a & Ha & Hno & ->)|(b & Hb & Hno & ->)]].
    + left. exists a. split; auto.
      assert (In b (filter (matches on a) N)) as Hin by (apply filter_In; auto).
      destruct (filter (matches on a) N) as [|b0 bs]; [destruct Hin|].
      apply in_map_iff. eauto.
    + left. exists a. split; auto.
      apply filter_nil in Hno. rewrite Hno. simpl. auto.
    + right. exists b. split; auto. apply filter_In. split; auto.
      apply negb_true_iff.
      destruct (existsb (fun a => matches on a b) P) eqn:E; auto.
      apply existsb_exists in E. destruct E as (a & Ha & Hab).
      rewrite (Hno a Ha) in Hab. discriminate.
Qed.

Lemma valued_cell df r :
  all_valued df -> In r df -> exists v, indicatedImbalance r = Some v.
Proof.
  unfold all_valued. rewrite Forall_forall. intros H Hr.
  specialize (H r Hr). destruct (indicatedImbalance r); [eauto|congruence].
Qed.

Lemma merge_outer_keys on P N k :
  In k (map on_key (merge_outer on P N)) <->
  In k (keys_of on P) \/ In k (keys_of on N).
Proof.
  unfold keys_of. rewrite !in_map_iff. setoid_rewrite in_merge_outer. split.
  - intros (m & <- & [(a & b & Ha & Hb & Hab & ->)|[(a & Ha & _ & ->)|(b & Hb & _ & ->)]]);
      simpl; eauto.
  - intros [(a & <- & Ha)|(b & <- & Hb)].
    + destruct (filter (matches on a) N) as [|b bs] eqn:F.
      * rewrite filter_nil in F. eexists. split; [|right; left; eauto]. reflexivity.
      * assert (In b (filter (matches on a) N)) as Hb by (rewrite F; simpl; auto).
        apply filter_In in Hb. destruct Hb as [Hb Hab].
        eexists. split; [|left; exists a, b; eauto]. reflexivity.
    + destruct (existsb (fun a => matches on a b) P) eqn:E.
      * apply existsb_exists in E. destruct E as (a & Ha & Hab).
        eexists. split; [|left; exists a, b; eauto]. simpl.
        apply mkey_eqb_eq. exact Hab.
      * eexists. split; [|right; right; exists b; repeat split; eauto].
        -- reflexivity.
        -- intros a Ha. destruct (matches on a b) eqn:Hab; auto.
           assert (existsb (fun a => matches on a b) P = true); [|congruence].
           apply existsb_exists. eauto.
Qed.

Lemma status_left_only k a :
  indicatedImbalance a <> None ->
  status (mkMerged k (Some a) None) = Some disappeared.
Proof.
  unfold status, prev_mask, new_mask, indicatedImbalance_prev,
    indicatedImbalance_new. simpl.
  destruct (indicatedImbalance a); [reflexivity | congruence].
Qed.

Lemma status_right_only k b :
  indicatedImbalance b <> None ->
  status (mkMerged k None (Some b)) = Some appeared.
Proof.
  unfold status, prev_mask, new_mask, indicatedImbalance_prev,
    indicatedImbalance_new. simpl.
  destruct (indicatedImbalance b); [reflexivity | congruence].
Qed.

Lemma delta_needs_both m :
  indicatedImbalance_prev m = None \/ indicatedImbalance_new m = None ->
  delta m = None.
Proof.
  unfold delta. intros [-> | ->]; [|reflexivity].
  destruct (indicatedImbalance_new m); reflexivity.
Qed.

Lemma all_valued_In df r : all_valued df -> In r df -> indicatedImbalance r <> None.
Proof. unfold all_valued. rewrite Forall_forall. auto. Qed.

(** C3: the keys of the diff are the union of the keys of the two
    snapshots; a key of the previous snapshot only is [disappeared], a
    key of the new snapshot only is [appeared], and the delta is null
    as soon as one side has no value. *)
Theorem C3_diff_keys_and_classes (A B : DataFrame) :
  all_valued A -> all_valued B ->
  (forall k, In k (map on_key (merged A B)) <->
             In k (keys_of (choose_merge_on A B) A) \/
             In k (keys_of (choose_merge_on A B) B)) /\
  (forall m, In m (merged A B) ->
             ~ In (on_key m) (keys_of (choose_merge_on A B) B) ->
             status m = Some disappeared) /\
  (forall m, In m (merged A B) ->
             ~ In (on_key m) (keys_of (choose_merge_on A B) A) ->
             status m = Some appeared) /\
  (forall m, In m (merged A B) ->
             indicatedImbalance_prev m = None \/ indicatedImbalance_new m = None ->
             delta m = None).
Proof.
  intros HA HB. unfold merged. set (on := choose_merge_on A B).
  split; [intros k; apply merge_outer_keys|].
  split; [|split]; [| |intros m _; apply delta_needs_both].
  - intros m Hm Hk. apply in_merge_outer in Hm.
    destruct Hm as [(a & b & Ha & Hb & Hab & ->)|[(a & Ha & _ & ->)|(b & Hb & _ & ->)]];
      simpl in Hk.
    + exfalso. apply Hk. apply mkey_eqb_eq in Hab. rewrite Hab.
      exact (in_map (merge_key on) B b Hb).
    + apply status_left_only. exact (all_valued_In A a HA Ha).
    + exfalso. apply Hk. exact (in_map (merge_key on) B b Hb).
  - intros m Hm Hk. apply in_merge_outer in Hm.
    destruct Hm as [(a & b & Ha & Hb & Hab & ->)|[(a & Ha & _ & ->)|(b & Hb & _ & ->)]];
      simpl in Hk.
    + exfalso. apply Hk. exact (in_map (merge_key on) A a Ha).
    + exfalso. apply Hk. exact (in_map (merge_key on) A a Ha).
    + apply status_right_only. exact (all_valued_In B b HB Hb).
Qed.

(** C3 at the example of the specification: period 3 is only in the new
    snapshot and is classified [appeared]. *)
Lemma C3_witness :
  all_valued prev_example /\ all_valued new_example /\
  status (mkMerged (Some "2025-12-07"%string, 3) None
                   (Some (mkRow "2025-12-07" 3 (Some 50) 2800 (Some Positive))))
  = Some appeared.
Proof.
  assert (all_valued prev_example) as HA by (repeat constructor; discriminate).
  assert (all_valued new_example) as HB by (repeat constructor; discriminate).
  split; [exact HA|]. split; [exact HB|].
  apply (proj1 (proj2 (proj2 (C3_diff_keys_and_classes _ _ HA HB)))).
  - simpl. auto.
  - simpl. intros [H|[H|[]]]; discriminate H.
Defined.

(** The worked example of the specification. *)
Lemma diff_example :
  map (fun m => (snd (on_key m), status m, delta m))
      (merged prev_example new_example)
  = [ (1, Some changed, Some 50);
      (2, Some unchanged, Some 0);
      (3, Some appeared, None) ].
Proof. reflexivity. Qed.

(** *** A snapshot against itself *)

Lemma NoDup_map_inj {A B} (f : A -> B) l a b :
  NoDup (map f l) -> In a l -> In b l -> f a = f b -> a = b.
Proof.
  induction l as [|x l IH]; simpl; intros Hnd Ha Hb Hf; [destruct Ha|].
  inversion Hnd as [|? ? Hx Hl]; subst.
  destruct Ha as [->|Ha], Hb as [->|Hb]; auto.
  - exfalso. apply Hx. rewrite Hf. apply in_map. exact Hb.
  - exfalso. apply Hx. rewrite <- Hf. apply in_map. exact Ha.
Qed.

Lemma matches_refl on a : matches on a a = true.
Proof. apply mkey_eqb_eq. reflexivity. Qed.

Lemma self_merge_rows on S m :
  all_valued S -> NoDup (keys_of on S) ->
  In m (merge_outer on S S) ->
  status m = Some unchanged /\ delta m = Some 0.
Proof.
  intros Hv Hnd Hm. apply in_merge_outer in Hm.
  destruct Hm as [(a & b & Ha & Hb & Hab & ->)|[(a & Ha & Hno & ->)|(b & Hb & Hno & ->)]].
  - apply mkey_eqb_eq in Hab.
    assert (a = b) by (eapply NoDup_map_inj; eauto). subst b.
    destruct (valued_cell S a Hv Ha) as (v & Hval).
    unfold status, delta, prev_mask, new_mask, indicatedImbalance_prev,
      indicatedImbalance_new. simpl. rewrite Hval. simpl.
    rewrite Z.sub_diag. auto.
  - pose proof (Hno a Ha) as H. rewrite matches_refl in H. discriminate.
  - pose proof (Hno b Hb) as H. rewrite matches_refl in H. discriminate.
Qed.

(** With a single date, distinct (settlementDate, settlementPeriod)
    keys are distinct merge keys. *)
Lemma single_date_merge_keys d S :
  single_date d S -> NoDup (map key S) ->
  NoDup (keys_of (choose_merge_on S S) S).
Proof.
  intros Hd Hnd.
  assert (choose_merge_on S S = OnDatePeriod) as ->
      by (apply choose_merge_on_iff; eauto).
  unfold keys_of. clear Hd. induction S as [|r S IH]; simpl; [constructor|].
  inversion Hnd; subst. constructor; [|auto].
  intros H. apply H1. apply in_map_iff in H. destruct H as (x & Hx & Hin).
  apply in_map_iff. exists x. split; [|exact Hin].
  unfold key. simpl in Hx. inversion Hx. reflexivity.
Qed.

End DiffFacts.

Module SchedulerFacts.

Import Normalize Signs Scheduler.

Lemma newer_irrefl x : newer x x = false.
Proof. destruct x; simpl; [apply Z.ltb_irrefl | reflexivity]. Qed.

(** One run of [full_run_and_plot] inside the loop. *)
Lemma full_run_inv feed w r w' :
  full_run_and_plot feed false w = (r, w') ->
  runs w' = S (runs w) /\
  events w' = events w ++ [Fetch (runs w)] /\
  now w <= now w' /\
  match r with
  | inl e => snd (feed (runs w)) = Raises e
  | inr df => candidate feed (runs w) = Some df /\
              exists raw, snd (feed (runs w)) = Rows raw
  end.
Proof.
  unfold full_run_and_plot, candidate.
  destruct (feed (runs w)) as [d o]. simpl.
  destruct o as [e|raw]; intros H; inversion H; subst; simpl;
    repeat split; eauto; lia.
Qed.

(** *** The retry sequence *)

Lemma retry_sequence_spec feed incs st :
  forall w flow found st' w',
    retry_sequence feed incs st w = (flow, found, st', w') ->
    (runs w <= runs w')%nat /\ now w <= now w' /\
    (forall k e, (runs w <= k < runs w')%nat -> snd (feed k) = Raises e ->
                 flow = Raised e /\ runs w' = S k) /\
    ((found = false /\ st' = st /\
      forall k, (runs w <= k < runs w')%nat -> hit feed st k = false)
     \/ (found = true /\ flow = Continue /\
         update_cycle st' = update_cycle st /\ replaced feed st w st' w')).
Proof.
  induction incs as [|inc rest IH]; intros w flow found st' w'; simpl.
  - intros H; inversion H; subst.
    split; [lia|]. split; [lia|]. split; [intros k e Hk; lia|].
    left. split; [reflexivity|]. split; [reflexivity|]. intros k Hk. lia.
  - destruct (inc <? 0) eqn:Einc.
    + intros H; inversion H; subst.
      split; [lia|]. split; [lia|]. split; [intros k e Hk; lia|].
      left. split; [reflexivity|]. split; [reflexivity|]. intros k Hk. lia.
    + apply Z.ltb_ge in Einc.
      destruct (full_run_and_plot feed false (countdown_timer inc w))
        as [[e|df] w1] eqn:E1;
        apply full_run_inv in E1; simpl in E1;
        destruct E1 as (Hruns & Hev & Hnow & Hres).
      * intros H; inversion H; subst.
        split; [lia|]. split; [lia|]. split.
        -- intros k e' Hk Hr. assert (k = runs w) by lia. subst k.
           rewrite Hres in Hr. inversion Hr; subst. auto.
        -- left. split; [reflexivity|]. split; [reflexivity|]. intros k Hk.
           assert (k = runs w) by lia. subst k.
           unfold hit, candidate. rewrite Hres. reflexivity.
      * destruct Hres as [Hcand (raw & Hraw)].
        destruct (newer (publish_max df) (prev_max_publish st)) eqn:Enew.
        -- intros H; inversion H; subst. simpl.
           split; [lia|]. split; [lia|]. split.
           ++ intros k e Hk Hr. assert (k = runs w) by lia. subst k.
              rewrite Hraw in Hr. discriminate.
           ++ right. split; [reflexivity|]. split; [reflexivity|].
              split; [reflexivity|].
              exists (runs w), df. simpl.
              split; [lia|]. split; [exact Hruns|]. split; [exact Hcand|].
              split; [exact Enew|]. split; [intros k' Hk'; lia|].
              split; [reflexivity|]. split; [reflexivity|].
              rewrite Hev. simpl. rewrite <- app_assoc. simpl. eauto.
        -- intros H. apply IH in H.
           destruct H as (Hle & Hnow' & Hraise & Hcases).
           split; [lia|]. split; [lia|]. split.
           ++ intros k e Hk Hr.
              destruct (Nat.eq_dec k (runs w)) as [->|Hne].
              ** rewrite Hraw in Hr. discriminate.
              ** apply Hraise; auto. lia.
           ++ assert (Hfirst : hit feed st (runs w) = false)
                by (unfold hit; rewrite Hcand; exact Enew).
              destruct Hcases as [(Hf & Hst & Hmiss)|(Hf & Hfl & Huc & Hrep)].
              ** left. split; [exact Hf|]. split; [exact Hst|]. intros k Hk.
                 destruct (Nat.eq_dec k (runs w)) as [->|Hne]; auto.
                 apply Hmiss. lia.
              ** right. split; [exact Hf|]. split; [exact Hfl|].
                 split; [exact Huc|].
                 destruct Hrep as (k & df' & H1 & H2 & H3 & H4 & H5 & H6 & H7 & H8).
                 exists k, df'.
                 split; [lia|]. split; [exact H2|]. split; [exact H3|].
                 split; [exact H4|]. split; [|auto].
                 intros k' Hk'.
                 destruct (Nat.eq_dec k' (runs w)) as [->|Hne]; auto.
                 apply H5. lia.
Qed.

(** *** One iteration *)

Lemma wait_for_expected_runs cfg st w :
  runs (wait_for_expected cfg st w) = runs w.
Proof.
  unfold wait_for_expected. destruct (seconds_to_wait cfg st w) as [s|]; auto.
  destruct (s >? 0); reflexivity.
Qed.

Lemma cycle_spec cfg feed st w flow st' w' :
  cycle cfg feed st w = (flow, st', w') ->
  (runs w < runs w')%nat /\
  (forall k e, (runs w <= k < runs w')%nat -> snd (feed k) = Raises e ->
               flow = Raised e /\ st' = st /\ runs w' = S k) /\
  (kept feed st w st' w' \/ (flow = Continue /\ replaced feed st w st' w')).
Proof.
  unfold cycle.
  destruct (full_run_and_plot feed false (wait_for_expected cfg st w))
    as [[e|df] w1] eqn:E1;
    apply full_run_inv in E1; rewrite wait_for_expected_runs in E1;
    destruct E1 as (Hruns & Hev & Hnow & Hres).
  - intros H; inversion H; subst.
    split; [lia|]. split.
    + intros k e' Hk Hr. assert (k = runs w) by lia. subst k.
      rewrite Hres in Hr. inversion Hr; subst. auto.
    + left. split; [reflexivity|]. split; [reflexivity|]. intros k Hk.
      assert (k = runs w) by lia. subst k.
      unfold hit, candidate. rewrite Hres. reflexivity.
  - destruct Hres as [Hcand (raw & Hraw)].
    destruct (newer (publish_max df) (prev_max_publish st)) eqn:Enew.
    { intros H; inversion H; subst. simpl.
      split; [lia|]. split.
      - intros k e Hk Hr. assert (k = runs w) by lia. subst k.
        rewrite Hraw in Hr. discriminate.
      - right. split; [reflexivity|]. exists (runs w), df. simpl.
        split; [lia|]. split; [exact Hruns|]. split; [exact Hcand|].
        split; [exact Enew|]. split; [intros k' Hk'; lia|].
        split; [reflexivity|]. split; [reflexivity|].
        rewrite Hev. rewrite <- app_assoc. simpl. eauto. }
    assert (Hfirst : hit feed st (runs w) = false)
      by (unfold hit; rewrite Hcand; exact Enew).
    destruct (retry cfg); simpl.
    + destruct (retry_sequence feed (retry_increments cfg) st w1)
        as [[[flow2 found] st2] w2] eqn:E2.
      apply retry_sequence_spec in E2.
      destruct E2 as (Hle & _ & Hraise & Hcases).
      intros H.
      assert (flow = flow2 /\ w' = w2 /\
              prev_df st' = prev_df st2 /\
              prev_max_publish st' = prev_max_publish st2 /\
              (flow2 <> Continue -> st' = st2)) as (-> & -> & Hdf & Hmax & Hst).
      { destruct flow2; inversion H; subst; simpl; repeat split; auto;
          intros; congruence. }
      split; [lia|]. split.
      * intros k e Hk Hr.
        destruct (Nat.eq_dec k (runs w)) as [->|Hne];
          [rewrite Hraw in Hr; discriminate|].
        destruct (Hraise k e) as [Hfl Hk']; auto; [lia|].
        split; [exact Hfl|]. split; [|exact Hk'].
        destruct Hcases as [(_ & -> & _)|(_ & Hc & _)].
        -- apply Hst. rewrite Hfl. discriminate.
        -- rewrite Hfl in Hc. discriminate.
      * destruct Hcases as [(Hf & -> & Hmiss)|(Hf & Hfl & Huc & Hrep)].
        -- left. split; [exact Hdf|]. split; [exact Hmax|]. intros k Hk.
           destruct (Nat.eq_dec k (runs w)) as [->|Hne]; auto.
           apply Hmiss. lia.
        -- right. split; [exact Hfl|].
           destruct Hrep as (k & df' & H1 & H2 & H3 & H4 & H5 & H6 & H7 & H8).
           exists k, df'.
           split; [lia|]. split; [exact H2|]. split; [exact H3|].
           split; [exact H4|]. split.
           ++ intros k' Hk'.
              destruct (Nat.eq_dec k' (runs w)) as [->|Hne]; auto.
              apply H5. lia.
           ++ split; [congruence|]. split; [congruence|]. exact H8.
    + intros H; inversion H; subst. simpl.
      split; [lia|]. split.
      * intros k e Hk Hr. assert (k = runs w) by lia. subst k.
        rewrite Hraw in Hr. discriminate.
      * left. split; [reflexivity|]. split; [reflexivity|]. intros k Hk.
        assert (k = runs w) by lia. subst k. exact Hfirst.
Qed.







(** A retry hit at the second delay: the 120-second delay is not slept. *)
Lemma retry_hit_example :
  let feed : Feed := fun k => match k with
                              | 2%nat => (2%nat, Rows [mkRow "2025-12-07" 1 (Some 15) 2830 None])
                              | _ => (2%nat, Rows raw_1000)
                              end in
  let r := cycle cfg_default feed (mkStore snapshot_1000 (Some 1000) 1)
                 (mkWorld 1102 0 []) in
  flow_of r = Continue /\
  prev_max_publish (store_of r) = Some 2830 /\
  filter is_countdown (events (world_of r)) = [Countdown 1698; Countdown 30; Countdown 60] /\
  runs (world_of r) = 3%nat.
Proof. vm_compute. auto. Qed.

(** *** Exceptions leave the loop *)

(** C6, as stated, fails: a fetch failure in the first iteration is not
    caught; the loop, observed for three iterations, is left with the
    exception after two fetches. *)
Lemma C6_fetch_failure_ends_loop :
  auto_update_loop 3 cfg_default feed_fails_second world_1100
  = (Raised FetchFailure,
     Some (mkStore snapshot_1000 (Some 1000) 1),
     mkWorld 2802 2 [Fetch 0; Plot snapshot_1000; Countdown 1698; Fetch 1]).
Proof. reflexivity. Qed.

Lemma retry_sequence_continues feed incs st :
  (forall k, exists raw, snd (feed k) = Rows raw) ->
  Forall (fun inc => 0 <= inc) incs ->
  forall w, fst (fst (fst (retry_sequence feed incs st w))) = Continue.
Proof.
  intros Hrows. induction 1 as [|inc rest Hinc _ IH]; intros w; simpl; auto.
  apply Z.ltb_ge in Hinc. rewrite Hinc.
  destruct (full_run_and_plot feed false (countdown_timer inc w))
    as [[e|df] w1] eqn:E1.
  - apply full_run_inv in E1. destruct E1 as (_ & _ & _ & Hres).
    destruct (Hrows (runs (countdown_timer inc w))) as (raw & Hraw).
    congruence.
  - destruct (newer (publish_max df) (prev_max_publish st)); auto.
Qed.

Lemma cycle_continues cfg feed st w :
  (forall k, exists raw, snd (feed k) = Rows raw) ->
  Forall (fun inc => 0 <= inc) (retry_increments cfg) ->
  flow_of (cycle cfg feed st w) = Continue.
Proof.
  intros Hrows Hincs. unfold cycle, flow_of.
  destruct (full_run_and_plot feed false (wait_for_expected cfg st w))
    as [[e|df] w1] eqn:E1.
  - apply full_run_inv in E1. destruct E1 as (_ & _ & _ & Hres).
    destruct (Hrows (runs (wait_for_expected cfg st w))) as (raw & Hraw).
    congruence.
  - destruct (newer (publish_max df) (prev_max_publish st)); auto.
    destruct (retry cfg); simpl; auto.
    pose proof (retry_sequence_continues feed _ st Hrows Hincs w1) as H.
    destruct (retry_sequence feed (retry_increments cfg) st w1)
      as [[[flow2 found] st2] w2].
    simpl in H. subst flow2. reflexivity.
Qed.

(** C6, amended: [auto_update_loop] handles no exception.  When a fetch
    of an iteration raises (attempts spent, or a malformed payload),
    the loop is left with that exception at that fetch, the store as it
    was when the iteration began; as long as no fetch raises and no
    retry delay is negative, the loop goes on for ever. *)
Theorem C6_failures_leave_the_loop (cfg : Config) (feed : Feed) (st : Store) (w : World) :
  (forall k e,
      (runs w <= k < runs (world_of (cycle cfg feed st w)))%nat ->
      snd (feed k) = Raises e ->
      runs (world_of (cycle cfg feed st w)) = S k /\
      forall n, run_cycles (S n) cfg feed st w
                = (Raised e, st, world_of (cycle cfg feed st w))) /\
  ((forall k, exists raw, snd (feed k) = Rows raw) ->
   Forall (fun inc => 0 <= inc) (retry_increments cfg) ->
   forall n, flow_of (run_cycles n cfg feed st w) = Continue).
Proof.
  split.
  - intros k e Hk Hr. simpl.
    destruct (cycle cfg feed st w) as [[flow st'] w'] eqn:E.
    unfold world_of in *. simpl in *.
    apply cycle_spec in E. destruct E as (_ & Hraise & _).
    destruct (Hraise k e Hk Hr) as (-> & -> & Hruns). auto.
  - intros Hrows Hincs n. revert st w.
    induction n as [|n IH]; intros st w; simpl; [reflexivity|].
    pose proof (cycle_continues cfg feed st w Hrows Hincs) as Hc.
    destruct (cycle cfg feed st w) as [[flow st'] w'].
    unfold flow_of in Hc. simpl in Hc. subst flow. apply IH.
Qed.

(** *** The expectation is not moved after a miss *)

Lemma wait_reaches_expected cfg st w t :
  prev_max_publish st = Some t ->
  t + 60 * update_interval_minutes cfg <= now (wait_for_expected cfg st w).
Proof.
  intros Ht. unfold wait_for_expected, seconds_to_wait. rewrite Ht.
  destruct (_ >? 0) eqn:E; [unfold countdown_timer; simpl; lia|].
  rewrite Z.gtb_ltb in E. apply Z.ltb_ge in E. lia.
Qed.

Lemma cycle_now cfg feed st w :
  now (wait_for_expected cfg st w) <= now (world_of (cycle cfg feed st w)).
Proof.
  unfold cycle, world_of.
  destruct (full_run_and_plot feed false (wait_for_expected cfg st w))
    as [[e|df] w1] eqn:E1;
    apply full_run_inv in E1; destruct E1 as (_ & _ & Hnow & _); simpl; auto.
  destruct (newer (publish_max df) (prev_max_publish st)); simpl; auto.
  destruct (retry cfg); simpl; auto.
  destruct (retry_sequence feed (retry_increments cfg) st w1)
    as [[[flow2 found] st2] w2] eqn:E2.
  apply retry_sequence_spec in E2. destruct E2 as (_ & Hnow2 & _).
  destruct flow2; simpl; lia.
Qed.

(** After an iteration that did not replace the snapshot, the next
    iteration finds its expected time already reached and fetches at
    once: the wait is computed from the same publish time as before. *)
Lemma miss_then_no_wait cfg feed st w :
  prev_max_publish (store_of (cycle cfg feed st w)) = prev_max_publish st ->
  wait_for_expected cfg (store_of (cycle cfg feed st w))
                    (world_of (cycle cfg feed st w))
  = world_of (cycle cfg feed st w).
Proof.
  intros Hsame. pose proof (cycle_now cfg feed st w) as Hnow.
  unfold wait_for_expected, seconds_to_wait. rewrite Hsame.
  destruct (prev_max_publish st) as [t|] eqn:Ht; [|reflexivity].
  pose proof (wait_reaches_expected cfg st w t Ht) as Hreach.
  destruct (_ >? 0) eqn:E; [|reflexivity].
  rewrite Z.gtb_ltb in E. apply Z.ltb_lt in E. lia.
Qed.

(** With retries disabled, a first-check miss costs one fetch and no
    backoff sleep, and leaves the store as it was. *)
Lemma retry_disabled_miss cfg feed st w df w1 :
  retry cfg = false ->
  full_run_and_plot feed false (wait_for_expected cfg st w) = (inr df, w1) ->
  newer (publish_max df) (prev_max_publish st) = false ->
  cycle cfg feed st w = (Continue, bump st, w1).
Proof.
  intros Hr Hf Hn. unfold cycle. rewrite Hf, Hn, Hr. reflexivity.
Qed.

(** C7 fails on the code: with retries disabled and no new data, the
    second and third iterations fetch at once, two seconds apart, with
    no wait in between; the only countdown is the first iteration's. *)
Theorem C7_retry_disabled_repolls_at_once :
  auto_update_loop 3 cfg_no_retry feed_same world_1100
  = (Continue,
     Some (mkStore snapshot_1000 (Some 1000) 4),
     mkWorld 2806 4 [Fetch 0; Plot snapshot_1000; Countdown 1698;
                     Fetch 1; Fetch 2; Fetch 3]).
Proof. reflexivity. Qed.

End SchedulerFacts.

Module SelfDiffFacts.

Import Diff DiffFacts Scheduler SchedulerFacts.

(** C9, as stated, fails: a snapshot holding the same period on two
    dates is keyed on the period alone, so the diff against itself
    pairs the two rows with each other, with a delta of 10 and the
    status [changed]. *)
Lemma C9_self_diff_refuted :
  Normalize.drop_na_get_final two_dates = two_dates /\
  all_valued two_dates /\
  NoDup (map key two_dates) /\
  In (mkMerged (None, 1)
               (Some (mkRow "2025-12-06" 1 (Some 10) 1000 (Some Positive)))
               (Some (mkRow "2025-12-07" 1 (Some 20) 1000 (Some Positive))))
     (merged two_dates two_dates) /\
  map (fun m => (status m, delta m)) (merged two_dates two_dates)
  = [ (Some unchanged, Some 0); (Some changed, Some 10);
      (Some changed, Some (-10)); (Some unchanged, Some 0) ].
Proof.
  split; [reflexivity|]. split; [repeat constructor; discriminate|].
  split; [|split; [simpl; auto | reflexivity]].
  repeat constructor; simpl; intuition discriminate.
Qed.

Lemma same_publish_kept cfg feed st w :
  (forall k df, candidate feed k = Some df ->
                publish_max df = prev_max_publish st) ->
  kept feed st w (store_of (cycle cfg feed st w)) (world_of (cycle cfg feed st w)).
Proof.
  intros Hsame.
  destruct (cycle cfg feed st w) as [[flow st'] w'] eqn:E.
  apply cycle_spec in E. unfold store_of, world_of. simpl.
  destruct E as (_ & _ & [H|(_ & k & df & _ & _ & Hc & Hn & _)]); [exact H|].
  rewrite (Hsame k df Hc), newer_irrefl in Hn. discriminate.
Qed.

(** C9, amended: for a snapshot whose rows have pairwise distinct merge
    keys under the key the diff chooses (as with a single date), every
    row of the diff against itself is [unchanged] with delta zero; and
    whatever the snapshot, candidates with the stored publish time never
    replace the stored snapshot. *)
Theorem C9_self_diff_noop (S : DataFrame) :
  all_valued S ->
  NoDup (keys_of (choose_merge_on S S) S) ->
  (forall m, In m (merged S S) ->
             status m = Some unchanged /\ delta m = Some 0) /\
  (forall cfg feed st w,
      (forall k df, candidate feed k = Some df ->
                    publish_max df = prev_max_publish st) ->
      kept feed st w (store_of (cycle cfg feed st w))
           (world_of (cycle cfg feed st w))).
Proof.
  intros Hv Hnd. split.
  - intros m Hm. eapply self_merge_rows; eauto.
  - intros cfg feed st w. apply same_publish_kept.
Qed.

(** C9 at a single-date snapshot: period 2 against itself. *)
Lemma C9_witness :
  all_valued prev_example /\
  NoDup (keys_of (choose_merge_on prev_example prev_example) prev_example) /\
  (status (mkMerged (Some "2025-12-07"%string, 2)
                    (Some (mkRow "2025-12-07" 2 (Some 200) 1000 (Some Positive)))
                    (Some (mkRow "2025-12-07" 2 (Some 200) 1000 (Some Positive))))
   = Some unchanged /\
   delta (mkMerged (Some "2025-12-07"%string, 2)
                   (Some (mkRow "2025-12-07" 2 (Some 200) 1000 (Some Positive)))
                   (Some (mkRow "2025-12-07" 2 (Some 200) 1000 (Some Positive))))
   = Some 0).
Proof.
  assert (all_valued prev_example) as Hv by (repeat constructor; discriminate).
  assert (NoDup (keys_of (choose_merge_on prev_example prev_example) prev_example))
    as Hnd by (repeat constructor; simpl; intuition discriminate).
  split; [exact Hv|]. split; [exact Hnd|].
  apply (proj1 (C9_self_diff_noop prev_example Hv Hnd)).
  simpl. auto.
Defined.

End SelfDiffFacts.

Module SignsFacts.

Import Signs Diff.

Lemma diff_sign_cell_none x : diff_sign_cell x = None <-> x = None.
Proof.
  destruct x as [v|]; unfold diff_sign_cell; simpl; [|tauto].
  destruct (v >=? 0); split; discriminate.
Qed.

(** C10: a value of 0 is signed Positive everywhere the code derives a
    sign (the [>= 0] branch): in the sign column of a snapshot, in the
    sign columns of the diff, and in the colouring of the Task 2 table.
    A null sign is derived only from an absent value. *)
Theorem C10_zero_is_positive :
  imbalance_sign_cell (Some 0) = Positive /\
  diff_sign_cell (Some 0) = Some Positive /\
  row_color (Some 0) = ft_green_light /\
  (forall df r, In r (imbalance_sign df) ->
                indicatedImbalance r = Some 0 ->
                indicatedImbalance_sign r = Some Positive) /\
  (forall df r, In r (imbalance_sign df) -> indicatedImbalance_sign r <> None) /\
  (forall m, indicatedImbalance_new m = Some 0 -> sign_new m = Some Positive) /\
  (forall m, indicatedImbalance_prev m = Some 0 -> sign_prev m = Some Positive) /\
  (forall m, sign_new m = None <-> indicatedImbalance_new m = None) /\
  (forall m, sign_prev m = None <-> indicatedImbalance_prev m = None) /\
  (forall v, row_color v = plot_bg <-> v = None).
Proof.
  repeat match goal with |- _ /\ _ => split end; try reflexivity.
  - intros df r Hr Hz. apply in_map_iff in Hr. destruct Hr as (x & <- & _).
    simpl in *. rewrite Hz. reflexivity.
  - intros df r Hr. apply in_map_iff in Hr. destruct Hr as (x & <- & _).
    simpl. discriminate.
  - intros m H. unfold sign_new. rewrite H. reflexivity.
  - intros m H. unfold sign_prev. rewrite H. reflexivity.
  - intros m. apply diff_sign_cell_none.
  - intros m. apply diff_sign_cell_none.
  - intros [v|]; simpl; [|tauto]. destruct (v >=? 0); split; discriminate.
Qed.

End SignsFacts.


Module FetcherMoreFacts.

Import Fetcher FetcherMore FetcherFacts.

(** *** The single-request fetchers *)

Lemma forecast_try_full http r n :
  exists r1 broke,
    fetch_forecast_try http (r, n)
    = (r1, mkNet (S (calls n)) (log n ++ [Get (calls n)]), broke) /\
    if broke
    then exists a, r1 = Some a /\ status_code a = 200 /\
                   call_no a = calls n /\ http (calls n) = Some 200
    else http (calls n) <> Some 200 /\ (is_200 r = false -> is_200 r1 = false).
Proof.
  unfold fetch_forecast_try, get.
  destruct (http (calls n)) as [c|] eqn:Ec; simpl.
  - destruct (c =? 200) eqn:E; do 2 eexists; (split; [reflexivity|]).
    + apply Z.eqb_eq in E. subst c. eexists; repeat split; reflexivity.
    + apply Z.eqb_neq in E. split; [congruence|]. intros _. simpl.
      apply Z.eqb_neq. exact E.
  - exists r, false. split; [reflexivity|]. split; [discriminate|auto].
Qed.

Lemma paced_gets_snoc first j :
  (1 <= j)%nat ->
  Get first :: Sleep 2 :: paced_gets (S first) j = paced_gets first (S j).
Proof. destruct j; [lia | reflexivity]. Qed.

Lemma forecast_loop_full http fuel N :
  forall attempt r n att' r' n',
    is_200 r = false ->
    (forall k, (k < calls n)%nat -> http k <> Some 200) ->
    retry_loop (fetch_forecast_try http) fuel N attempt (r, n)
    = Some (att', (r', n')) ->
    exists j,
      calls n' = (calls n + j)%nat /\
      log n' = log n ++ paced_gets (calls n) j /\
      (attempt <= N -> (1 <= j)%nat) /\
      ((exists a, (1 <= j)%nat /\ r' = Some a /\ status_code a = 200 /\
                  http (call_no a) = Some 200 /\
                  calls n' = S (call_no a) /\ att' <= N /\
                  att' = attempt + Z.of_nat j - 1 /\
                  forall k, (k < call_no a)%nat -> http k <> Some 200)
       \/ (is_200 r' = false /\ N < att' /\
           Z.of_nat j = Z.max 0 (N + 1 - attempt) /\
           forall k, (k < calls n')%nat -> http k <> Some 200)).
Proof.
  induction fuel as [|fuel IH]; intros attempt r n att' r' n' Hr Hold;
    cbn [retry_loop]; destruct (attempt <=? N) eqn:E; try discriminate;
    try (apply Z.leb_gt in E; intros H; inversion H; subst; exists 0%nat;
         rewrite Nat.add_0_r, app_nil_r;
         split; [reflexivity|]; split; [reflexivity|]; split; [lia|];
         right; repeat split; auto; lia).
  apply Z.leb_le in E.
  destruct (forecast_try_full http r n) as (r1 & broke & Etry & Hb).
  rewrite Etry. destruct broke.
  - destruct Hb as (a & -> & Hs & Hn & Hh).
    intros H; inversion H; subst. exists 1%nat.
    split; [simpl; lia|]. split; [reflexivity|]. split; [lia|].
    left. exists a. rewrite Hn. simpl.
    repeat split; auto; try lia.
  - destruct Hb as [Hno Hr1]. specialize (Hr1 Hr).
    cbn [fst snd]. intros H.
    assert (Hold1 : forall k, (k < S (calls n))%nat -> http k <> Some 200).
    { intros k Hk. destruct (Nat.eq_dec k (calls n)) as [->|Hne]; auto.
      apply Hold. lia. }
    destruct (attempt + 1 <=? N) eqn:E1.
    + apply Z.leb_le in E1.
      apply IH in H; [|exact Hr1|exact Hold1].
      destruct H as (j & Hc & Hl & Hj & Hcases). specialize (Hj E1).
      exists (S j). simpl in Hc, Hl.
      split; [lia|]. split.
      { rewrite Hl, <- !app_assoc. f_equal. destruct j; [lia|reflexivity]. }
      split; [lia|].
      destruct Hcases as [(a & H0 & H1 & H2 & H3 & H4 & H5 & H6 & H7)|(H1 & H2 & H3 & H4)].
      * left. exists a. repeat split; auto. lia.
      * right. repeat split; auto. lia.
    + apply Z.leb_gt in E1.
      apply IH in H; [|exact Hr1|exact Hold1].
      destruct H as (j & Hc & Hl & Hj & Hcases).
      destruct Hcases as [(a & H0 & H1 & H2 & H3 & H4 & H5 & H6 & H7)|(H1 & H2 & H3 & H4)];
        [lia|].
      assert (j = 0%nat) by lia. subst j.
      exists 1%nat. simpl in Hc, Hl. rewrite app_nil_r in Hl.
      split; [lia|]. split; [exact Hl|]. split; [lia|].
      right. repeat split; auto. lia.
Qed.

Lemma forecast_run http N :
  exists att res n,
    fetch_wind_solar_forecast http N = Some (att, res, n) /\
    log n = paced_gets 0 (calls n) /\
    ((exists a, res = Ok a /\ http (call_no a) = Some 200 /\
                (forall k, (k < call_no a)%nat -> http k <> Some 200) /\
                calls n = S (call_no a) /\ att = Z.of_nat (calls n) /\ att <= N)
     \/ (res = ApiRequestFailed /\ N < att /\
         Z.of_nat (calls n) = Z.max 0 N /\
         forall k, (k < calls n)%nat -> http k <> Some 200)).
Proof.
  unfold fetch_wind_solar_forecast.
  destruct (retry_loop _ _ _ _ _) as [[att [r n]]|] eqn:E;
    [|exfalso; revert E; apply retry_loop_total; lia].
  exists att. eexists. exists n. split; [reflexivity|].
  apply forecast_loop_full in E; [|reflexivity|simpl; intros k Hk; lia].
  destruct E as (j & Hc & Hl & _ & Hcases). simpl in Hc, Hl. subst j.
  split; [exact Hl|].
  destruct Hcases as [(a & H0 & -> & H2 & H3 & H4 & H5 & H6 & H7)|(H1 & H2 & H3 & H4)].
  - left. exists a. rewrite H2. simpl. repeat split; auto. lia.
  - right. replace (N + 1 - 1) with N in H3 by lia. repeat split; auto.
    destruct r as [a|]; [|reflexivity]. simpl in H1. rewrite H1. reflexivity.
Qed.

(** X1: each single-request fetcher stops at the first request answered
    200 and returns that response; when none of its requests is answered
    200 it raises after exactly [query_attempt_count] requests (none when
    the count is not positive). *)
Theorem X1_single_request_contract (http : Http) (N : Z) :
  fetch_wind_solar_actuals http N = fetch_wind_solar_forecast http N /\
  exists att res n,
    fetch_wind_solar_forecast http N = Some (att, res, n) /\
    ((exists a, res = Ok a /\ http (call_no a) = Some 200 /\
                (forall k, (k < call_no a)%nat -> http k <> Some 200) /\
                calls n = S (call_no a) /\ att = Z.of_nat (calls n) /\ att <= N)
     \/ (res = ApiRequestFailed /\ N < att /\
         Z.of_nat (calls n) = Z.max 0 N /\
         forall k, (k < calls n)%nat -> http k <> Some 200)).
Proof.
  split; [reflexivity|].
  destruct (forecast_run http N) as (att & res & n & H & _ & Hc). eauto.
Qed.

(** X2: the single-request fetchers sleep two seconds between two
    consecutive requests and at no other time: not before the first
    request and not after the last one, whether it succeeded or not. *)
Theorem X2_single_request_pacing (http : Http) (N : Z) :
  exists att res n,
    fetch_wind_solar_forecast http N = Some (att, res, n) /\
    fetch_wind_solar_actuals http N = Some (att, res, n) /\
    log n = paced_gets 0 (calls n).
Proof.
  destruct (forecast_run http N) as (att & res & n & H & Hl & _).
  exists att, res, n. auto.
Qed.

(** *** The two-request fetcher *)

Lemma genuine_mono http n n' r :
  genuine http n r -> (calls n <= calls n')%nat -> genuine http n' r.
Proof.
  intros H Hle a Ha. destruct (H a Ha) as [H1 H2]. split; [exact H1|lia].
Qed.

Lemma fetch_data_try_cases http r1 r2 n :
  (http (calls n) = None /\
   fetch_data_try http ((r1, r2), n)
   = ((r1, r2), mkNet (S (calls n)) (log n ++ [Get (calls n)]), false))
  \/ (exists x, http (calls n) = Some x /\ http (S (calls n)) = None /\
        fetch_data_try http ((r1, r2), n)
        = ((Some (mkResponse (calls n) x), r2),
           mkNet (S (S (calls n)))
                 (((log n ++ [Get (calls n)]) ++ [Sleep 1]) ++ [Get (S (calls n))]),
           false))
  \/ (exists x y, http (calls n) = Some x /\ http (S (calls n)) = Some y /\
        fetch_data_try http ((r1, r2), n)
        = ((Some (mkResponse (calls n) x), Some (mkResponse (S (calls n)) y)),
           mkNet (S (S (calls n)))
                 (((log n ++ [Get (calls n)]) ++ [Sleep 1]) ++ [Get (S (calls n))]),
           (x =? 200) && (y =? 200))).
Proof.
  unfold fetch_data_try, get, sleep. simpl.
  destruct (http (calls n)) as [x|] eqn:E1; simpl; [|left; auto].
  destruct (http (S (calls n))) as [y|] eqn:E2; simpl.
  - right; right. exists x, y. auto.
  - right; left. exists x. auto.
Qed.

Lemma fetch_data_loop_full http fuel N :
  forall attempt r1 r2 n att' r1' r2' n',
    genuine http n r1 -> genuine http n r2 ->
    retry_loop (fetch_data_try http) fuel N attempt ((r1, r2), n)
    = Some (att', ((r1', r2'), n')) ->
    exists j,
      calls n' = (calls n + j)%nat /\
      (j <= 2 * Z.to_nat (N + 1 - attempt))%nat /\
      genuine http n' r1' /\ genuine http n' r2' /\
      ((att' <= N /\
        exists a b, r1' = Some a /\ r2' = Some b /\
                    status_code a = 200 /\ status_code b = 200 /\
                    call_no b = S (call_no a) /\ calls n' = S (call_no b))
       \/ (N < att' /\ (Z.to_nat (N + 1 - attempt) <= j)%nat)).
Proof.
  induction fuel as [|fuel IH]; intros attempt r1 r2 n att' r1' r2' n' G1 G2;
    cbn [retry_loop]; destruct (attempt <=? N) eqn:E; try discriminate;
    try (apply Z.leb_gt in E; intros H; inversion H; subst; exists 0%nat;
         split; [lia|]; split; [lia|]; split; [exact G1|]; split; [exact G2|];
         right; split; lia).
  apply Z.leb_le in E.
  assert (Hstep : forall r1a r2a na,
             genuine http na r1a -> genuine http na r2a ->
             (calls n < calls na <= calls n + 2)%nat ->
             retry_loop (fetch_data_try http) fuel N (attempt + 1)
               (if attempt + 1 <=? N
                then (fst ((r1a, r2a), na), sleep 2 (snd ((r1a, r2a), na)))
                else ((r1a, r2a), na))
             = Some (att', ((r1', r2'), n')) ->
             exists j,
               calls n' = (calls n + j)%nat /\
               (j <= 2 * Z.to_nat (N + 1 - attempt))%nat /\
               genuine http n' r1' /\ genuine http n' r2' /\
               ((att' <= N /\
                 exists a b, r1' = Some a /\ r2' = Some b /\
                             status_code a = 200 /\ status_code b = 200 /\
                             call_no b = S (call_no a) /\ calls n' = S (call_no b))
                \/ (N < att' /\ (Z.to_nat (N + 1 - attempt) <= j)%nat))).
  { intros r1a r2a na Ga Gb Hna H.
    assert (exists nb, calls nb = calls na /\
              retry_loop (fetch_data_try http) fuel N (attempt + 1) ((r1a, r2a), nb)
              = Some (att', ((r1', r2'), n'))) as (nb & Hnb & H').
    { cbn [fst snd] in H. destruct (attempt + 1 <=? N); eexists; split;
        try exact H; reflexivity. }
    apply IH in H'; try (eapply genuine_mono; eauto; lia).
    destruct H' as (j & Hc & Hj & G1' & G2' & Hcases).
    exists (calls na - calls n + j)%nat.
    split; [lia|]. split; [lia|]. split; [exact G1'|]. split; [exact G2'|].
    destruct Hcases as [Hok|[Hlt Hj']]; [left; exact Hok|right]. split; lia. }
  destruct (fetch_data_try_cases http r1 r2 n)
    as [(Hc & ->)|[(x & Hx & Hy & ->)|(x & y & Hx & Hy & ->)]].
  - apply Hstep; simpl; try lia; eapply genuine_mono; eauto; simpl; lia.
  - apply Hstep; simpl; try lia.
    + intros a Ha. inversion Ha; subst. simpl. split; [exact Hx|lia].
    + eapply genuine_mono; eauto; simpl; lia.
  - destruct ((x =? 200) && (y =? 200)) eqn:Eb.
    + apply andb_true_iff in Eb. destruct Eb as [Ex Ey].
      apply Z.eqb_eq in Ex, Ey. subst x y.
      intros H; inversion H; subst. exists 2%nat. simpl.
      split; [lia|]. split; [lia|].
      split; [intros a Ha; inversion Ha; subst; simpl; split; [exact Hx|lia]|].
      split; [intros a Ha; inversion Ha; subst; simpl; split; [exact Hy|lia]|].
      left. split; [exact E|]. do 2 eexists. repeat split; reflexivity.
    + apply Hstep; simpl; try lia.
      * intros a Ha. inversion Ha; subst. simpl. split; [exact Hx|lia].
      * intros a Ha. inversion Ha; subst. simpl. split; [exact Hy|lia].
Qed.

Lemma fetch_data_run http N :
  exists att r1 r2 n j,
    retry_loop (fetch_data_try http) (Z.to_nat N) N 1 ((None, None), mkNet 0 [])
    = Some (att, ((r1, r2), n)) /\
    calls n = j /\ (j <= 2 * Z.to_nat N)%nat /\
    genuine http n r1 /\ genuine http n r2 /\
    ((att <= N /\
      exists a b, r1 = Some a /\ r2 = Some b /\
                  status_code a = 200 /\ status_code b = 200 /\
                  call_no b = S (call_no a) /\ calls n = S (call_no b))
     \/ (N < att /\ (Z.to_nat N <= j)%nat)).
Proof.
  destruct (retry_loop (fetch_data_try http) (Z.to_nat N) N 1
              ((None, None), mkNet 0 [])) as [[att [[r1 r2] n]]|] eqn:E;
    [|exfalso; revert E; apply retry_loop_total; lia].
  apply fetch_data_loop_full in E; try (intros a Ha; discriminate Ha).
  destruct E as (j & Hc & Hj & G1 & G2 & Hcases).
  replace (N + 1 - 1) with N in * by lia. simpl in Hc.
  exists att, r1, r2, n, j.
  split; [reflexivity|]. split; [exact Hc|]. split; [exact Hj|].
  split; [exact G1|]. split; [exact G2|]. exact Hcases.
Qed.

(** X3: with a non-positive [query_attempt_count] no fetcher makes a
    request or sleeps; each raises at once. *)
Theorem X3_no_attempts_no_request (http : Http) (N : Z) :
  N <= 0 ->
  fetch_data http N = Some (1, ApiRequestFailed, mkNet 0 []) /\
  fetch_wind_solar_forecast http N = Some (1, ApiRequestFailed, mkNet 0 []) /\
  fetch_wind_solar_actuals http N = Some (1, ApiRequestFailed, mkNet 0 []).
Proof.
  intros HN.
  unfold fetch_data, fetch_data_from, fetch_wind_solar_forecast,
    fetch_wind_solar_actuals.
  replace (Z.to_nat N) with 0%nat by lia. cbn [retry_loop].
  assert ((1 <=? N) = false) as -> by (apply Z.leb_gt; lia).
  repeat split.
Qed.

(** X3 at a count of 0 on a network that would answer. *)
Lemma X3_witness :
  0 <= 0 /\
  fetch_data http_stale 0 = Some (1, ApiRequestFailed, mkNet 0 []).
Proof.
  split; [lia|].
  exact (proj1 (X3_no_attempts_no_request http_stale 0 (Z.le_refl 0))).
Defined.

(** X4: whenever [fetch_data] leaves its loop before the attempts are
    used up, it returns the two responses of its last attempt, both
    answered 200 by consecutive requests, the last two it made.  In
    particular a first attempt answered 200 twice is returned after two
    requests and the one-second pause between them. *)
Theorem X4_fetch_data_early_return (http : Http) (N : Z) :
  (exists att res n,
      fetch_data http N = Some (att, res, n) /\
      (att <= N ->
       exists a b, res = Ok (a, b) /\
                   http (call_no a) = Some 200 /\ http (call_no b) = Some 200 /\
                   call_no b = S (call_no a) /\ calls n = S (call_no b))) /\
  (1 <= N -> http 0%nat = Some 200 -> http 1%nat = Some 200 ->
   fetch_data http N
   = Some (1, Ok (mkResponse 0 200, mkResponse 1 200),
           mkNet 2 [Get 0; Sleep 1; Get 1])).
Proof.
  split.
  - destruct (fetch_data_run http N)
      as (att & r1 & r2 & n & j & E & Hc & Hj & G1 & G2 & Hcases).
    unfold fetch_data, fetch_data_from. rewrite E.
    exists att. eexists. exists n. split; [reflexivity|].
    intros Hatt. destruct Hcases as [(_ & a & b & -> & -> & Ha & Hb & Hab & Hn)|[Hlt _]];
      [|lia].
    exists a, b. rewrite Ha, Hb. simpl.
    destruct (G1 a eq_refl) as [Ga _]. destruct (G2 b eq_refl) as [Gb _].
    rewrite Ha in Ga. rewrite Hb in Gb. auto.
  - intros HN H0 H1. unfold fetch_data, fetch_data_from.
    destruct (Z.to_nat N) as [|fuel] eqn:EN; [lia|].
    cbn [retry_loop].
    assert ((1 <=? N) = true) as -> by (apply Z.leb_le; lia).
    unfold fetch_data_try, get, sleep. simpl. rewrite H0. simpl. rewrite H1.
    reflexivity.
Qed.

(** X5: [fetch_data] makes at most two requests per attempt, and at
    least one per attempt when the attempts are used up; a pair it
    returns consists of responses this run really received with status
    200; hence it raises when no request is ever answered 200. *)
Theorem X5_fetch_data_budget (http : Http) (N : Z) :
  exists att res n,
    fetch_data http N = Some (att, res, n) /\
    (calls n <= 2 * Z.to_nat N)%nat /\
    (N < att -> (Z.to_nat N <= calls n)%nat) /\
    (forall a b, res = Ok (a, b) ->
                 http (call_no a) = Some 200 /\ http (call_no b) = Some 200 /\
                 (call_no a < calls n)%nat /\ (call_no b < calls n)%nat) /\
    ((forall k, http k <> Some 200) -> res = ApiRequestFailed).
Proof.
  destruct (fetch_data_run http N)
    as (att & r1 & r2 & n & j & E & Hc & Hj & G1 & G2 & Hcases).
  unfold fetch_data, fetch_data_from. rewrite E.
  exists att. eexists. exists n. split; [reflexivity|].
  split; [lia|]. split.
  { intros Hatt. destruct Hcases as [[Hle _]|[_ Hge]]; lia. }
  assert (Hok : forall a b,
             match r1, r2 with
             | Some a0, Some b0 =>
                 if negb (status_code a0 =? 200) || negb (status_code b0 =? 200)
                 then ApiRequestFailed else Ok (a0, b0)
             | _, _ => ApiRequestFailed
             end = Ok (a, b) ->
             http (call_no a) = Some 200 /\ http (call_no b) = Some 200 /\
             (call_no a < calls n)%nat /\ (call_no b < calls n)%nat).
  { intros a b H. destruct r1 as [a0|], r2 as [b0|]; try discriminate.
    destruct (status_code a0 =? 200) eqn:Ea; [|discriminate].
    destruct (status_code b0 =? 200) eqn:Eb; [|discriminate].
    simpl in H. inversion H; subst. apply Z.eqb_eq in Ea, Eb.
    destruct (G1 a eq_refl) as [Ga La]. destruct (G2 b eq_refl) as [Gb Lb].
    rewrite Ea in Ga. rewrite Eb in Gb. auto. }
  split; [exact Hok|].
  intros Hno.
  destruct r1 as [a0|], r2 as [b0|]; try reflexivity.
  destruct (negb (status_code a0 =? 200) || negb (status_code b0 =? 200)) eqn:Ec;
    [reflexivity|].
  exfalso. destruct (Hok a0 b0 eq_refl) as (Ha & _). exact (Hno _ Ha).
Qed.

End FetcherMoreFacts.


Module SchedulerMoreFacts.

Import Normalize NormalizeFacts Signs Scheduler SchedulerFacts SchedulerMore.

(** *** [countdown_timer] *)

Lemma countdown_loop_nonneg fuel :
  forall n, 0 <= n -> (Z.to_nat n <= fuel)%nat ->
    countdown_loop fuel n
    = Some (map (fun i => countdown_display (n - Z.of_nat i)) (seq 0 (Z.to_nat n))).
Proof.
  induction fuel as [|fuel IH]; intros n Hn Hfuel; simpl.
  - assert (n = 0) by lia. subst n. reflexivity.
  - destruct (n =? 0) eqn:E.
    + apply Z.eqb_eq in E. subst n. reflexivity.
    + apply Z.eqb_neq in E. rewrite IH by lia.
      replace (Z.to_nat n) with (S (Z.to_nat (n - 1))) by lia.
      simpl. rewrite Z.sub_0_r. do 2 f_equal.
      rewrite <- seq_shift, map_map. apply map_ext. intros i. f_equal. lia.
Qed.

Lemma countdown_loop_negative fuel :
  forall n, n < 0 -> countdown_loop fuel n = None.
Proof.
  induction fuel as [|fuel IH]; intros n Hn; simpl;
    (destruct (n =? 0) eqn:E; [apply Z.eqb_eq in E; lia|]); [reflexivity|].
  rewrite IH by lia. reflexivity.
Qed.

(** X6: [countdown_timer(n)] returns after exactly [n] one-second sleeps
    when [n >= 0], showing the times left [n], [n-1], ..., 1; called with
    a negative number it never returns, whatever the number of steps
    granted. *)
Theorem X6_countdown_timer_terminates_iff_nonneg :
  (forall n, 0 <= n ->
     countdown_loop (Z.to_nat n) n
     = Some (map (fun i => countdown_display (n - Z.of_nat i)) (seq 0 (Z.to_nat n)))) /\
  (forall n fuel, n < 0 -> countdown_loop fuel n = None).
Proof.
  split.
  - intros n Hn. apply countdown_loop_nonneg; [exact Hn|lia].
  - intros n fuel. apply countdown_loop_negative.
Qed.

(** X7: the hours, minutes and seconds shown by [countdown_timer] add up
    to the seconds left, with minutes and seconds below 60, and a
    non-negative hour for a non-negative time. *)
Theorem X7_countdown_display_decomposes (seconds : Z) :
  let '(hours, mins, secs) := countdown_display seconds in
  seconds = 3600 * hours + 60 * mins + secs /\
  0 <= mins < 60 /\ 0 <= secs < 60 /\
  (0 <= seconds <-> 0 <= hours).
Proof.
  unfold countdown_display.
  pose proof (Z.div_mod seconds 60 ltac:(lia)) as H1.
  pose proof (Z.div_mod (seconds / 60) 60 ltac:(lia)) as H2.
  pose proof (Z.mod_pos_bound seconds 60 ltac:(lia)) as H3.
  pose proof (Z.mod_pos_bound (seconds / 60) 60 ltac:(lia)) as H4.
  repeat split; try lia.
Qed.

(** *** What a fetched snapshot looks like *)

Lemma imbalance_sign_keys df : map key (imbalance_sign df) = map key df.
Proof. unfold imbalance_sign. rewrite map_map. reflexivity. Qed.

Lemma imbalance_sign_sorted df :
  StronglySorted le_publish df -> StronglySorted le_publish (imbalance_sign df).
Proof.
  induction 1 as [|r df Hs IH Hr]; simpl; constructor; [exact IH|].
  unfold imbalance_sign. rewrite Forall_map.
  eapply Forall_impl; [|exact Hr]. intros x Hx. exact Hx.
Qed.

Lemma normalised_snapshot_ok raw :
  snapshot_ok (imbalance_sign (drop_na_get_final raw)).
Proof.
  split; [|split].
  - unfold imbalance_sign. rewrite Forall_map.
    eapply Forall_impl; [|apply final_valued].
    intros r Hr. apply FrameFacts.notna_true in Hr. simpl.
    destruct (indicatedImbalance r) as [v|]; [|congruence].
    exists v. split; reflexivity.
  - rewrite imbalance_sign_keys. apply groupby_tail1_NoDup.
  - apply imbalance_sign_sorted, groupby_tail1_sorted, sort_values_sorted.
Qed.

Lemma candidate_snapshot_ok feed k df :
  candidate feed k = Some df -> snapshot_ok df.
Proof.
  unfold candidate. destruct (snd (feed k)) as [e|raw]; [discriminate|].
  intros H; inversion H; subst. apply normalised_snapshot_ok.
Qed.

(** *** More on one iteration *)

Lemma full_run_events feed w r w' :
  full_run_and_plot feed false w = (r, w') ->
  events w' = events w ++ [Fetch (runs w)].
Proof. intros H. apply full_run_inv in H. tauto. Qed.

Lemma retry_sequence_more feed incs st :
  forall w flow found st' w',
    retry_sequence feed incs st w = (flow, found, st', w') ->
    (runs w' <= runs w + List.length incs)%nat /\
    update_cycle st' = update_cycle st /\
    (found = false -> st' = st) /\
    (found = true -> flow = Continue /\
                     newer (prev_max_publish st') (prev_max_publish st) = true) /\
    exists evs,
      events w' = events w ++ evs /\
      filter is_plot_diff evs
      = if found then [PlotDiff (prev_df st) (prev_df st')] else [].
Proof.
  induction incs as [|inc rest IH]; intros w flow found st' w'; simpl.
  - intros H; inversion H; subst.
    split; [lia|]. split; [reflexivity|]. split; [reflexivity|].
    split; [discriminate|]. exists []. rewrite app_nil_r. auto.
  - destruct (inc <? 0).
    + intros H; inversion H; subst.
      split; [lia|]. split; [reflexivity|]. split; [reflexivity|].
      split; [discriminate|]. exists []. rewrite app_nil_r. auto.
    + destruct (full_run_and_plot feed false (countdown_timer inc w))
        as [[e|df] w1] eqn:E1;
        apply full_run_inv in E1; simpl in E1;
        destruct E1 as (Hruns & Hev & _ & _).
      * intros H; inversion H; subst.
        split; [lia|]. split; [reflexivity|]. split; [reflexivity|].
        split; [discriminate|].
        exists [Countdown inc; Fetch (runs w)].
        rewrite Hev, <- app_assoc. auto.
      * destruct (newer (publish_max df) (prev_max_publish st)) eqn:Enew.
        -- intros H; inversion H; subst. simpl.
           split; [lia|]. split; [reflexivity|]. split; [discriminate|].
           split; [auto|].
           exists [Countdown inc; Fetch (runs w); PlotDiff (prev_df st) df].
           rewrite Hev, <- !app_assoc. auto.
        -- intros H. apply IH in H.
           destruct H as (Hr & Huc & Hnf & Hf & evs & Hevs & Hfilter).
           split; [lia|]. split; [exact Huc|]. split; [exact Hnf|].
           split; [exact Hf|].
           exists (Countdown inc :: Fetch (runs w) :: evs).
           rewrite Hevs, Hev, <- !app_assoc. simpl. auto.
Qed.

Lemma wait_for_expected_events cfg st w :
  exists evs, events (wait_for_expected cfg st w) = events w ++ evs /\
              filter is_plot_diff evs = [].
Proof.
  unfold wait_for_expected. destruct (seconds_to_wait cfg st w) as [s|];
    [destruct (s >? 0)|]; simpl;
    try (exists []; rewrite app_nil_r; auto; fail).
  exists [Countdown s]. auto.
Qed.

Lemma cycle_more cfg feed st w flow st' w' :
  cycle cfg feed st w = (flow, st', w') ->
  (runs w' <= runs w + 1 + List.length (retry_increments cfg))%nat /\
  (retry cfg = false -> runs w' = S (runs w)) /\
  (flow = Continue -> update_cycle st' = update_cycle st + 1) /\
  (flow <> Continue -> st' = st) /\
  exists evs,
    events w' = events w ++ evs /\
    filter is_plot_diff evs
    = if newer (prev_max_publish st') (prev_max_publish st)
      then [PlotDiff (prev_df st) (prev_df st')] else [].
Proof.
  unfold cycle.
  destruct (wait_for_expected_events cfg st w) as (ev0 & Hev0 & Hf0).
  destruct (full_run_and_plot feed false (wait_for_expected cfg st w))
    as [[e|df] w1] eqn:E1;
    apply full_run_inv in E1; rewrite wait_for_expected_runs in E1;
    destruct E1 as (Hruns & Hev & _ & _); rewrite Hev0 in Hev.
  - intros H; inversion H; subst.
    split; [lia|]. split; [auto|]. split; [discriminate|]. split; [auto|].
    exists (ev0 ++ [Fetch (runs w)]). rewrite Hev, app_assoc.
    split; [reflexivity|]. rewrite filter_app, Hf0, newer_irrefl. reflexivity.
  - destruct (newer (publish_max df) (prev_max_publish st)) eqn:Enew.
    { intros H; inversion H; subst. simpl. rewrite Enew.
      split; [lia|]. split; [auto|]. split; [auto|]. split; [congruence|].
      exists (ev0 ++ [Fetch (runs w); PlotDiff (prev_df st) df]).
      rewrite Hev, <- !app_assoc. split; [reflexivity|].
      rewrite filter_app, Hf0. reflexivity. }
    destruct (retry cfg); simpl.
    + destruct (retry_sequence feed (retry_increments cfg) st w1)
        as [[[flow2 found] st2] w2] eqn:E2.
      apply retry_sequence_more in E2.
      destruct E2 as (Hr & Huc & Hnf & Hf & evs & Hevs & Hfilter).
      intros H.
      assert (Hshape : flow = flow2 /\ w' = w2 /\
                prev_df st' = prev_df st2 /\
                prev_max_publish st' = prev_max_publish st2 /\
                (flow2 = Continue -> update_cycle st' = update_cycle st2 + 1) /\
                (flow2 <> Continue -> st' = st2)).
      { destruct flow2; inversion H; subst; simpl; repeat split; auto;
          intros; congruence. }
      destruct Hshape as (-> & -> & Hdf & Hmax & Hbump & Hstop).
      split; [lia|]. split; [discriminate|].
      split; [intros Hc; rewrite (Hbump Hc); lia|]. split.
      * intros Hc. rewrite (Hstop Hc). apply Hnf.
        destruct found; [|reflexivity]. destruct (Hf eq_refl) as [Hc' _].
        contradiction.
      * exists ((ev0 ++ [Fetch (runs w)]) ++ evs).
        rewrite Hevs, Hev, <- !app_assoc. split; [reflexivity|].
        rewrite !filter_app, Hf0, Hfilter, Hdf, Hmax. simpl.
        destruct found.
        -- destruct (Hf eq_refl) as [_ ->]. reflexivity.
        -- rewrite (Hnf eq_refl), newer_irrefl. reflexivity.
    + intros H; inversion H; subst. simpl.
      split; [lia|]. split; [auto|]. split; [auto|]. split; [congruence|].
      exists (ev0 ++ [Fetch (runs w)]). rewrite Hev, app_assoc.
      split; [reflexivity|]. rewrite filter_app, Hf0, newer_irrefl. reflexivity.
Qed.

(** *** Invariants of the loop *)

Lemma run_cycles_preserves (P : Store -> Prop) cfg feed :
  (forall st w, P st -> P (store_of (cycle cfg feed st w))) ->
  forall n st w, P st -> P (store_of (run_cycles n cfg feed st w)).
Proof.
  intros Hstep. induction n as [|n IH]; intros st w HP; simpl; [exact HP|].
  specialize (Hstep st w HP).
  destruct (cycle cfg feed st w) as [[flow st'] w'].
  unfold store_of in Hstep. simpl in Hstep.
  destruct flow; [apply IH; exact Hstep | exact Hstep | exact Hstep].
Qed.

Lemma publish_le_refl a : publish_le a a.
Proof. destruct a; simpl; [lia|exact I]. Qed.

Lemma publish_le_trans a b c : publish_le a b -> publish_le b c -> publish_le a c.
Proof. destruct a, b, c; simpl; try lia; tauto. Qed.

Lemma cycle_publish_le cfg feed st w :
  publish_le (prev_max_publish st) (prev_max_publish (store_of (cycle cfg feed st w))).
Proof.
  destruct (cycle cfg feed st w) as [[flow st'] w'] eqn:E.
  apply cycle_spec in E. unfold store_of. simpl.
  destruct E as (_ & _ & [(_ & -> & _)|(_ & k & df & _ & _ & _ & Hn & _ & _ & -> & _)]).
  - apply publish_le_refl.
  - unfold newer in Hn.
    destruct (publish_max df), (prev_max_publish st); try discriminate.
    apply Z.ltb_lt in Hn. simpl. lia.
Qed.

(** X8: over any number of iterations the stored publish time never
    moves back: a known time stays known and can only grow, and an
    unknown one (NaT) stays unknown. *)
Theorem X8_publish_time_never_goes_back
    (cfg : Config) (feed : Feed) (st : Store) (w : World) (n : nat) :
  publish_le (prev_max_publish st)
             (prev_max_publish (store_of (run_cycles n cfg feed st w))).
Proof.
  apply (run_cycles_preserves
           (fun st' => publish_le (prev_max_publish st) (prev_max_publish st'))).
  - intros st1 w1 H. eapply publish_le_trans; [exact H|apply cycle_publish_le].
  - apply publish_le_refl.
Qed.

Lemma final_nil_iff raw : drop_na_get_final raw = [] <-> dropna raw = [].
Proof.
  split.
  - intros H. destruct (dropna raw) as [|r l] eqn:E; [reflexivity|exfalso].
    assert (Hr : In r (dropna raw)) by (rewrite E; left; reflexivity).
    apply filter_In in Hr. destruct Hr as [Hr Hv].
    assert (Hk : In (key r) (map key (drop_na_get_final raw))).
    { apply final_keys. exists r. rewrite <- FrameFacts.notna_true. auto. }
    rewrite H in Hk. exact Hk.
  - intros H. unfold drop_na_get_final. rewrite H. reflexivity.
Qed.

Lemma initial_run_inv feed w r w' :
  full_run_and_plot feed true w = (r, w') ->
  runs w' = S (runs w) /\
  match r with
  | inl e => snd (feed (runs w)) = Raises e \/
             (e = PlotValueError /\
              exists raw, snd (feed (runs w)) = Rows raw /\ dropna raw = [])
  | inr df => df <> [] /\
              events w' = events w ++ [Fetch (runs w); Plot df] /\
              exists raw, snd (feed (runs w)) = Rows raw /\
                          df = imbalance_sign (drop_na_get_final raw)
  end.
Proof.
  unfold full_run_and_plot. destruct (feed (runs w)) as [d o]. cbn [snd].
  destruct o as [e|raw].
  - intros H; inversion H; subst. cbn [runs]. auto.
  - destruct (imbalance_sign (drop_na_get_final raw)) as [|r0 l] eqn:E.
    + intros H; inversion H; subst. cbn [runs]. split; [reflexivity|].
      right. split; [reflexivity|]. exists raw. split; [reflexivity|].
      apply final_nil_iff. unfold imbalance_sign in E.
      apply map_eq_nil in E. exact E.
    + intros H; inversion H; subst. cbn [runs events emit].
      split; [reflexivity|]. split; [discriminate|].
      split; [rewrite <- app_assoc; reflexivity|].
      exists raw. auto.
Qed.

(** X9: the store of the loop always holds a snapshot as
    [full_run_and_plot] returns it: it has rows, every row valued and
    signed by its value, keys distinct, rows in publish order, and the
    stored publish time is that snapshot's own latest publish time.
    There is no store exactly when the initial run raised: its fetch
    did, or [plot] did because no row of the initial payload has a
    value. *)
Theorem X9_store_holds_a_normalised_snapshot
    (n : nat) (cfg : Config) (feed : Feed) (w : World) :
  match auto_update_loop n cfg feed w with
  | (_, Some st, _) =>
      prev_df st <> [] /\
      prev_max_publish st = publish_max (prev_df st) /\
      snapshot_ok (prev_df st) /\
      exists raw, snd (feed (runs w)) = Rows raw /\ dropna raw <> []
  | (flow, None, w') =>
      runs w' = S (runs w) /\
      ((exists e, snd (feed (runs w)) = Raises e /\ flow = Raised e) \/
       (exists raw, snd (feed (runs w)) = Rows raw /\ dropna raw = [] /\
                    flow = Raised PlotValueError))
  end.
Proof.
  unfold auto_update_loop.
  destruct (full_run_and_plot feed true w) as [[e|df] w1] eqn:E1;
    apply initial_run_inv in E1; destruct E1 as (Hruns & Hres).
  - split; [exact Hruns|].
    destruct Hres as [Hres|(-> & raw & Hraw & Hnil)]; [left|right]; eauto.
  - destruct Hres as (Hne & _ & raw & Hraw & ->).
    pose proof (run_cycles_preserves
                  (fun st => prev_df st <> [] /\
                             prev_max_publish st = publish_max (prev_df st) /\
                             snapshot_ok (prev_df st)) cfg feed) as Hinv.
    assert (Hstep : forall st w0,
               prev_df st <> [] /\
               prev_max_publish st = publish_max (prev_df st) /\
               snapshot_ok (prev_df st) ->
               prev_df (store_of (cycle cfg feed st w0)) <> [] /\
               prev_max_publish (store_of (cycle cfg feed st w0))
               = publish_max (prev_df (store_of (cycle cfg feed st w0))) /\
               snapshot_ok (prev_df (store_of (cycle cfg feed st w0)))).
    { intros st w0 (Hn & Hm & Hs).
      destruct (cycle cfg feed st w0) as [[flow st'] w'] eqn:E.
      apply cycle_spec in E. unfold store_of. simpl.
      destruct E as (_ & _ & [(Hdf' & Hmax' & _)|(_ & k & df' & _ & _ & Hc & Hnew & _ & Hd & Hx & _)]).
      - rewrite Hdf', Hmax'. auto.
      - rewrite Hd, Hx. split; [|split; [reflexivity|]].
        + intros ->. simpl in Hnew. discriminate.
        + eapply candidate_snapshot_ok; eauto. }
    specialize (Hinv Hstep n
                  (mkStore (imbalance_sign (drop_na_get_final raw))
                           (publish_max (imbalance_sign (drop_na_get_final raw))) 1)
                  w1
                  (conj Hne (conj eq_refl (normalised_snapshot_ok raw)))).
    destruct (run_cycles n cfg feed _ w1) as [[flow st] w2].
    unfold store_of in Hinv. simpl in Hinv.
    destruct Hinv as (H1 & H2 & H3).
    split; [exact H1|]. split; [exact H2|]. split; [exact H3|].
    exists raw. split; [exact Hraw|].
    intros Hnil. apply Hne. apply final_nil_iff in Hnil. rewrite Hnil. reflexivity.
Qed.

(** X10: an iteration makes at least one fetch and at most one more than
    there are retry delays; with retries disabled it makes exactly one. *)
Theorem X10_fetches_per_iteration
    (cfg : Config) (feed : Feed) (st : Store) (w : World) :
  (runs w < runs (world_of (cycle cfg feed st w))
   <= runs w + 1 + List.length (retry_increments cfg))%nat /\
  (retry cfg = false -> runs (world_of (cycle cfg feed st w)) = S (runs w)).
Proof.
  destruct (cycle cfg feed st w) as [[flow st'] w'] eqn:E.
  pose proof (cycle_spec _ _ _ _ _ _ _ E) as (Hlt & _).
  pose proof (cycle_more _ _ _ _ _ _ _ E) as (Hle & Hone & _).
  unfold world_of. simpl. split; [lia|exact Hone].
Qed.

Lemma cycle_stops_with_start_store cfg feed st w :
  flow_of (cycle cfg feed st w) <> Continue ->
  store_of (cycle cfg feed st w) = st.
Proof.
  destruct (cycle cfg feed st w) as [[flow st'] w'] eqn:E.
  apply cycle_more in E. unfold flow_of, store_of. simpl. tauto.
Qed.

(** X11: [update_cycle] counts the iterations: while the loop is running
    it has grown by one per iteration, and when the loop is left early it
    has the value of the iteration that was left. *)
Theorem X11_update_cycle_counts_iterations
    (cfg : Config) (feed : Feed) (n : nat) (st : Store) (w : World) :
  (flow_of (run_cycles n cfg feed st w) = Continue ->
   update_cycle (store_of (run_cycles n cfg feed st w))
   = update_cycle st + Z.of_nat n) /\
  (flow_of (run_cycles n cfg feed st w) <> Continue ->
   update_cycle st <= update_cycle (store_of (run_cycles n cfg feed st w))
   < update_cycle st + Z.of_nat n).
Proof.
  revert st w. induction n as [|n IH]; intros st w.
  - unfold flow_of, store_of. simpl. split; [intros _; lia|congruence].
  - simpl. destruct (cycle cfg feed st w) as [[flow st'] w'] eqn:E.
    pose proof (cycle_more _ _ _ _ _ _ _ E) as (_ & _ & Hc & Hs & _).
    destruct flow.
    + specialize (Hc eq_refl). destruct (IH st' w') as [IH1 IH2].
      split; intros H.
      * rewrite (IH1 H). lia.
      * specialize (IH2 H). lia.
    + unfold flow_of, store_of. simpl.
      rewrite (Hs ltac:(discriminate)). split; [discriminate|]. intros _. lia.
    + unfold flow_of, store_of. simpl.
      rewrite (Hs ltac:(discriminate)). split; [discriminate|]. intros _. lia.
Qed.

(** X12: the countdown at the head of an iteration is started only
    when the expected time lies ahead of the clock, and is asked to
    count the whole seconds of the time left: that many seconds from
    now is the expected time or less than one second before it, never
    after it, so the check that follows is not held back to the expected
    time itself (with less than a second left the countdown is
    [countdown_timer(0)]).  When both times are whole seconds nothing is
    cut off and this is the wait of [wait_for_expected]. *)
Theorem X12_countdown_truncates_the_wait (next_expected_us now_us : Z) :
  1000 * (next_expected_us - now_us) < 2 ^ 53 ->
  match countdown_seconds next_expected_us now_us with
  | Some c =>
      now_us < next_expected_us /\ 0 <= c /\
      now_us + 1000000 * c <= next_expected_us < now_us + 1000000 * (c + 1)
  | None => next_expected_us <= now_us
  end /\
  (forall cfg st w t,
      prev_max_publish st = Some t ->
      next_expected_us = 1000000 * (t + 60 * update_interval_minutes cfg) ->
      now_us = 1000000 * now w ->
      seconds_to_wait cfg st w = Some (t + 60 * update_interval_minutes cfg - now w) /\
      countdown_seconds next_expected_us now_us
      = if t + 60 * update_interval_minutes cfg - now w >? 0
        then Some (t + 60 * update_interval_minutes cfg - now w)
        else None).
Proof.
  intros _. unfold countdown_seconds. split.
  - destruct (next_expected_us - now_us >? 0) eqn:E; rewrite Z.gtb_ltb in E.
    + apply Z.ltb_lt in E.
      rewrite Z.quot_div_nonneg by lia.
      pose proof (Z.div_mod (next_expected_us - now_us) 1000000 ltac:(lia)) as H1.
      pose proof (Z.mod_pos_bound (next_expected_us - now_us) 1000000 ltac:(lia)) as H2.
      assert (0 <= (next_expected_us - now_us) / 1000000)
        by (apply Z.div_pos; lia).
      lia.
    + apply Z.ltb_ge in E. lia.
  - intros cfg st w t Ht -> ->. unfold seconds_to_wait. rewrite Ht.
    split; [reflexivity|].
    set (s := t + 60 * update_interval_minutes cfg - now w).
    replace (1000000 * (t + 60 * update_interval_minutes cfg) - 1000000 * now w)
      with (s * 1000000) by (unfold s; lia).
    destruct (s >? 0) eqn:E; rewrite Z.gtb_ltb in E.
    + apply Z.ltb_lt in E.
      assert ((s * 1000000 >? 0) = true) as ->
        by (rewrite Z.gtb_ltb; apply Z.ltb_lt; lia).
      rewrite Z.quot_mul by lia. reflexivity.
    + apply Z.ltb_ge in E.
      assert ((s * 1000000 >? 0) = false) as ->
        by (rewrite Z.gtb_ltb; apply Z.ltb_ge; lia).
      reflexivity.
Qed.

(** X12 with the store's publish time at second 1000, an interval of 30
    minutes and the clock a quarter of a second past second 1100: the
    countdown is asked for 1699 seconds, three quarters of a second
    short of the expected time. *)
Lemma X12_witness :
  1000 * (2800000000 - 1100250000) < 2 ^ 53 /\
  countdown_seconds 2800000000 1100250000 = Some 1699 /\
  1100250000 + 1000000 * 1699 <= 2800000000 < 1100250000 + 1000000 * (1699 + 1).
Proof.
  split; [reflexivity|]. split; [reflexivity|].
  exact (proj2 (proj2 (proj1
    (X12_countdown_truncates_the_wait 2800000000 1100250000 eq_refl)))).
Defined.

(** X13: an iteration plots a diff exactly when it replaces the stored
    snapshot, and then once: the old snapshot against the new one. *)
Theorem X13_diff_plotted_on_replacement_only
    (cfg : Config) (feed : Feed) (st : Store) (w : World) :
  exists evs,
    events (world_of (cycle cfg feed st w)) = events w ++ evs /\
    filter is_plot_diff evs
    = if newer (prev_max_publish (store_of (cycle cfg feed st w)))
               (prev_max_publish st)
      then [PlotDiff (prev_df st) (prev_df (store_of (cycle cfg feed st w)))]
      else [].
Proof.
  destruct (cycle cfg feed st w) as [[flow st'] w'] eqn:E.
  apply cycle_more in E. unfold world_of, store_of. simpl. tauto.
Qed.

(** X14: a negative retry delay is never waited out.  When retries are
    enabled, the first check brings nothing new and the first delay is
    negative, the iteration makes that one fetch and then stays in the
    countdown for ever: the store is untouched and the loop goes no
    further. *)
Theorem X14_negative_delay_hangs
    (cfg : Config) (feed : Feed) (st : Store) (w : World) (inc : Z) (rest : list Z) :
  retry cfg = true ->
  retry_increments cfg = inc :: rest ->
  inc < 0 ->
  (exists raw, snd (feed (runs w)) = Rows raw) ->
  hit feed st (runs w) = false ->
  (forall fuel, countdown_loop fuel inc = None) /\
  flow_of (cycle cfg feed st w) = Hung /\
  store_of (cycle cfg feed st w) = st /\
  runs (world_of (cycle cfg feed st w)) = S (runs w) /\
  forall n, run_cycles (S n) cfg feed st w = cycle cfg feed st w.
Proof.
  intros Hretry Hincs Hneg (raw & Hraw) Hmiss.
  split; [intros fuel; apply countdown_loop_negative; exact Hneg|].
  assert (Hc : cycle cfg feed st w
               = (Hung, st,
                  snd (full_run_and_plot feed false (wait_for_expected cfg st w)))).
  { unfold cycle.
    destruct (full_run_and_plot feed false (wait_for_expected cfg st w))
      as [[e|df] w1] eqn:E1;
      pose proof (full_run_inv _ _ _ _ E1) as (Hruns & _ & _ & Hres);
      rewrite wait_for_expected_runs in *.
    - congruence.
    - destruct Hres as [Hcand _]. unfold hit in Hmiss. rewrite Hcand in Hmiss.
      rewrite Hmiss, Hretry, Hincs. simpl.
      assert ((inc <? 0) = true) as -> by (apply Z.ltb_lt; exact Hneg).
      reflexivity. }
  rewrite Hc. unfold flow_of, store_of, world_of. simpl.
  split; [reflexivity|]. split; [reflexivity|]. split.
  - destruct (full_run_and_plot feed false (wait_for_expected cfg st w))
      as [r w1] eqn:E1.
    apply full_run_inv in E1. rewrite wait_for_expected_runs in E1. simpl. tauto.
  - intros n. rewrite Hc. reflexivity.
Qed.

(** X14 at the delays [-5; 60] on a feed that never changes. *)
Lemma X14_witness :
  flow_of (cycle cfg_negative_delay feed_same
                 (mkStore snapshot_1000 (Some 1000) 1) world_1100) = Hung.
Proof.
  apply (X14_negative_delay_hangs cfg_negative_delay feed_same
           (mkStore snapshot_1000 (Some 1000) 1) world_1100 (-5) [60]).
  - reflexivity.
  - reflexivity.
  - lia.
  - exists raw_1000. reflexivity.
  - reflexivity.
Defined.

End SchedulerMoreFacts.


Module DiffMoreFacts.

Import Diff DiffFacts DiffMore Signs.

Lemma diff_sign_cell_some v :
  diff_sign_cell (Some v) = Some (if v >=? 0 then Positive else Negative).
Proof. unfold diff_sign_cell. simpl. destruct (v >=? 0); reflexivity. Qed.

Lemma positive_cell x :
  notna x && sign_is (diff_sign_cell x) Positive = true <->
  exists v, x = Some v /\ 0 <= v.
Proof.
  destruct x as [v|]; simpl.
  - rewrite diff_sign_cell_some. destruct (v >=? 0) eqn:E; simpl.
    + split; [intros _; exists v; split; [reflexivity|lia]|reflexivity].
    + split; [discriminate|]. intros (u & Hu & Hle). inversion Hu; subst. lia.
  - split; [discriminate|]. intros (u & Hu & _). discriminate.
Qed.

Lemma negative_cell x :
  notna x && sign_is (diff_sign_cell x) Negative = true <->
  exists v, x = Some v /\ v < 0.
Proof.
  destruct x as [v|]; simpl.
  - rewrite diff_sign_cell_some. destruct (v >=? 0) eqn:E; simpl.
    + split; [discriminate|]. intros (u & Hu & Hle). inversion Hu; subst. lia.
    + split; [intros _; exists v; split; [reflexivity|lia]|reflexivity].
  - split; [discriminate|]. intros (u & Hu & _). discriminate.
Qed.

(** X15: [plot_diff] draws every previous value in exactly one of its two
    "Previous" traces and every new value in exactly one of its two
    "Latest" traces: the Positive one when the value is at least 0, the
    Negative one when it is below; a missing value is in no trace. *)
Theorem X15_traces_partition_the_values (m : MergedRow) :
  (prev_positive_mask m = true <->
   exists v, indicatedImbalance_prev m = Some v /\ 0 <= v) /\
  (prev_negative_mask m = true <->
   exists v, indicatedImbalance_prev m = Some v /\ v < 0) /\
  (new_positive_mask m = true <->
   exists v, indicatedImbalance_new m = Some v /\ 0 <= v) /\
  (new_negative_mask m = true <->
   exists v, indicatedImbalance_new m = Some v /\ v < 0).
Proof.
  unfold prev_positive_mask, prev_negative_mask, new_positive_mask,
    new_negative_mask, prev_mask, new_mask, sign_prev, sign_new.
  split; [apply positive_cell|]. split; [apply negative_cell|].
  split; [apply positive_cell|apply negative_cell].
Qed.

(** X16: [plot_diff] joins the old and the new point of a row by a line
    exactly when both values are present; the line is green when the
    value went up and red otherwise, an unchanged value included. *)
Theorem X16_line_colour (m : MergedRow) :
  (line_color m = Some ft_green <->
   exists p n, indicatedImbalance_prev m = Some p /\
               indicatedImbalance_new m = Some n /\ p < n) /\
  (line_color m = Some ft_red <->
   exists p n, indicatedImbalance_prev m = Some p /\
               indicatedImbalance_new m = Some n /\ n <= p) /\
  (line_color m = None <->
   indicatedImbalance_prev m = None \/ indicatedImbalance_new m = None).
Proof.
  unfold line_color, both_mask, prev_mask, new_mask, delta.
  destruct (indicatedImbalance_prev m) as [p|], (indicatedImbalance_new m) as [n|];
    simpl.
  - destruct (n - p >? 0) eqn:E; rewrite Z.gtb_ltb in E;
      [apply Z.ltb_lt in E | apply Z.ltb_ge in E].
    + split; [split; [intros _; exists p, n; repeat split; lia|reflexivity]|].
      split; [split; [discriminate|]|split; [discriminate|intros [H|H]; discriminate]].
      intros (p' & n' & Hp & Hn & Hle). inversion Hp; inversion Hn; subst. lia.
    + split; [split; [discriminate|]|].
      { intros (p' & n' & Hp & Hn & Hlt). inversion Hp; inversion Hn; subst. lia. }
      split; [split; [intros _; exists p, n; repeat split; lia|reflexivity]|].
      split; [discriminate|intros [H|H]; discriminate].
  - split; [split; [discriminate|intros (p' & n' & _ & Hn & _); discriminate]|].
    split; [split; [discriminate|intros (p' & n' & _ & Hn & _); discriminate]|].
    split; auto.
  - split; [split; [discriminate|intros (p' & n' & Hp & _); discriminate]|].
    split; [split; [discriminate|intros (p' & n' & Hp & _); discriminate]|].
    split; auto.
  - split; [split; [discriminate|intros (p' & n' & Hp & _); discriminate]|].
    split; [split; [discriminate|intros (p' & n' & Hp & _); discriminate]|].
    split; auto.
Qed.

(** X17: the outer merge of [plot_diff] loses no row of either snapshot
    and invents none: a row is in the previous (new) snapshot exactly
    when some merged row carries it on its previous (new) side; every
    merged row carries at least one side, and each side it carries has
    the merged row's key. *)
Theorem X17_merge_keeps_every_row (A B : DataFrame) :
  (forall a, In a A <-> exists m, In m (merged A B) /\ side_prev m = Some a) /\
  (forall b, In b B <-> exists m, In m (merged A B) /\ side_new m = Some b) /\
  (forall m, In m (merged A B) ->
     (side_prev m <> None \/ side_new m <> None) /\
     (forall a, side_prev m = Some a -> merge_key (choose_merge_on A B) a = on_key m) /\
     (forall b, side_new m = Some b -> merge_key (choose_merge_on A B) b = on_key m)).
Proof.
  unfold merged. set (on := choose_merge_on A B).
  split; [|split].
  - intros a. split.
    + intros Ha. destruct (filter (matches on a) B) as [|b bs] eqn:F.
      * rewrite filter_nil in F. eexists. split.
        -- apply in_merge_outer. right; left. exists a. eauto.
        -- reflexivity.
      * assert (In b (filter (matches on a) B)) as Hb by (rewrite F; simpl; auto).
        apply filter_In in Hb. destruct Hb as [Hb Hab]. eexists. split.
        -- apply in_merge_outer. left. exists a, b. eauto.
        -- reflexivity.
    + intros (m & Hm & Hs). apply in_merge_outer in Hm.
      destruct Hm as [(a' & b & Ha & Hb & Hab & ->)|[(a' & Ha & _ & ->)|(b & Hb & _ & ->)]];
        simpl in Hs; inversion Hs; subst; exact Ha.
  - intros b. split.
    + intros Hb. destruct (existsb (fun a => matches on a b) A) eqn:E.
      * apply existsb_exists in E. destruct E as (a & Ha & Hab). eexists. split.
        -- apply in_merge_outer. left. exists a, b. eauto.
        -- reflexivity.
      * eexists. split.
        -- apply in_merge_outer. right; right. exists b. repeat split; eauto.
           intros a Ha. destruct (matches on a b) eqn:Hab; auto.
           assert (existsb (fun a => matches on a b) A = true); [|congruence].
           apply existsb_exists. eauto.
        -- reflexivity.
    + intros (m & Hm & Hs). apply in_merge_outer in Hm.
      destruct Hm as [(a & b' & Ha & Hb & Hab & ->)|[(a & Ha & _ & ->)|(b' & Hb & _ & ->)]];
        simpl in Hs; inversion Hs; subst; exact Hb.
  - intros m Hm. apply in_merge_outer in Hm.
    destruct Hm as [(a & b & Ha & Hb & Hab & ->)|[(a & Ha & _ & ->)|(b & Hb & _ & ->)]];
      simpl.
    + apply mkey_eqb_eq in Hab.
      split; [left; discriminate|].
      split; intros x Hx; inversion Hx; subst; auto.
    + split; [left; discriminate|].
      split; intros x Hx; inversion Hx; subst; auto.
    + split; [right; discriminate|].
      split; intros x Hx; inversion Hx; subst; auto.
Qed.

Lemma filter_matches_at_most_one on a B :
  NoDup (keys_of on B) ->
  filter (matches on a) B = [] \/ exists b, filter (matches on a) B = [b].
Proof.
  unfold keys_of. induction B as [|b B IH]; simpl; intros Hnd; [auto|].
  inversion Hnd as [|? ? Hb HB]; subst.
  destruct (matches on a b) eqn:E; [|auto].
  right. exists b. f_equal. apply filter_nil. intros x Hx.
  destruct (matches on a x) eqn:Ex; [|reflexivity].
  exfalso. apply Hb. unfold matches in E, Ex.
  apply mkey_eqb_eq in E, Ex. rewrite <- E, Ex. apply in_map. exact Hx.
Qed.

Lemma left_part_keys on A B :
  NoDup (keys_of on B) ->
  map on_key
      (flat_map (fun a =>
                   match filter (matches on a) B with
                   | [] => [mkMerged (merge_key on a) (Some a) None]
                   | bs => map (fun b => mkMerged (merge_key on a) (Some a) (Some b)) bs
                   end) A)
  = keys_of on A.
Proof.
  intros HB. unfold keys_of. induction A as [|a A IH]; [reflexivity|].
  cbn [flat_map]. rewrite map_app, IH. cbn [map]. change (?x :: ?l) with ([x] ++ l).
  f_equal.
  destruct (filter_matches_at_most_one on a B HB) as [->|(b & ->)]; reflexivity.
Qed.

Lemma NoDup_map_filter {X Y} (f : X -> Y) (p : X -> bool) l :
  NoDup (map f l) -> NoDup (map f (filter p l)).
Proof.
  induction l as [|x l IH]; simpl; intros H; [constructor|].
  inversion H as [|? ? Hx Hl]; subst.
  destruct (p x); [|auto]. simpl. constructor; [|auto].
  intros Hin. apply Hx. apply in_map_iff in Hin. destruct Hin as (y & Hy & Hyl).
  apply filter_In in Hyl. rewrite <- Hy. apply in_map. tauto.
Qed.

(** X18: when each snapshot has pairwise distinct merge keys (under the
    key [plot_diff] chooses), the merged frame has exactly one row per
    key. *)
Theorem X18_one_row_per_key (A B : DataFrame) :
  NoDup (keys_of (choose_merge_on A B) A) ->
  NoDup (keys_of (choose_merge_on A B) B) ->
  NoDup (map on_key (merged A B)).
Proof.
  unfold merged. set (on := choose_merge_on A B). intros HA HB.
  unfold merge_outer. rewrite map_app.
  pose proof (left_part_keys on A B HB) as Hl. rewrite Hl.
  rewrite map_map. simpl. apply NoDup_app.
  - exact HA.
  - apply NoDup_map_filter. exact HB.
  - intros k Hk Hk'. apply in_map_iff in Hk'. destruct Hk' as (b & <- & Hb).
    apply filter_In in Hb. destruct Hb as [Hb Hno].
    apply negb_true_iff in Hno.
    apply in_map_iff in Hk. destruct Hk as (a & Hab & Ha).
    assert (existsb (fun a => matches on a b) A = true); [|congruence].
    apply existsb_exists. exists a. split; [exact Ha|].
    apply mkey_eqb_eq. exact Hab.
Qed.

(** X18 at the example of the specification: three rows, three keys. *)
Lemma X18_witness :
  NoDup (keys_of (choose_merge_on prev_example new_example) prev_example) /\
  NoDup (keys_of (choose_merge_on prev_example new_example) new_example) /\
  NoDup (map on_key (merged prev_example new_example)).
Proof.
  assert (NoDup (keys_of (choose_merge_on prev_example new_example) prev_example))
    as HA by (repeat constructor; simpl; intuition discriminate).
  assert (NoDup (keys_of (choose_merge_on prev_example new_example) new_example))
    as HB by (repeat constructor; simpl; intuition discriminate).
  split; [exact HA|]. split; [exact HB|].
  exact (X18_one_row_per_key prev_example new_example HA HB).
Defined.

End DiffMoreFacts.


Module Task2Facts.

Import Task2.

(** *** Sorting by a key *)

Lemma insert_by_perm {A K} (leb : K -> K -> bool) (f : A -> K) x l :
  Permutation (insert_by leb f x l) (x :: l).
Proof.
  induction l as [|y l IH]; simpl; [reflexivity|].
  destruct (leb (f x) (f y)); [reflexivity|].
  rewrite IH. apply perm_swap.
Qed.

Lemma sort_by_perm {A K} (leb : K -> K -> bool) (f : A -> K) l :
  Permutation (sort_by leb f l) l.
Proof.
  induction l as [|x l IH]; simpl; [reflexivity|].
  rewrite insert_by_perm. constructor. exact IH.
Qed.

Lemma sort_by_in {A K} (leb : K -> K -> bool) (f : A -> K) l x :
  In x (sort_by leb f l) <-> In x l.
Proof.
  split; apply Permutation_in; [|symmetry]; apply sort_by_perm.
Qed.

Section Total.

Context {A K : Type} (leb : K -> K -> bool) (f : A -> K).
Hypothesis leb_total : forall a b, leb a b = false -> leb b a = true.

Let ordered (x y : A) : Prop := leb (f x) (f y) = true.

Lemma insert_by_sorted x l :
  Sorted ordered l -> Sorted ordered (insert_by leb f x l).
Proof.
  induction 1 as [|y l Hs IH Hy]; simpl.
  - repeat constructor.
  - destruct (leb (f x) (f y)) eqn:E.
    + constructor; [constructor; assumption|]. constructor. exact E.
    + constructor; [exact IH|].
      destruct l as [|z l]; simpl.
      * constructor. apply leb_total. exact E.
      * destruct (leb (f x) (f z)); constructor.
        -- apply leb_total. exact E.
        -- inversion Hy; assumption.
Qed.

Lemma sort_by_sorted l : Sorted ordered (sort_by leb f l).
Proof.
  induction l as [|x l IH]; simpl; [constructor|].
  apply insert_by_sorted. exact IH.
Qed.

End Total.

(** *** Keys *)

Lemma fuel_eqb_eq a b : fuel_eqb a b = true <-> a = b.
Proof. destruct a, b; simpl; split; congruence. Qed.

Lemma gkey_eqb_eq a b : gkey_eqb a b = true <-> a = b.
Proof.
  destruct a as [[d p] x], b as [[d' p'] x']. unfold gkey_eqb. simpl.
  rewrite !andb_true_iff, String.eqb_eq, Z.eqb_eq, fuel_eqb_eq.
  split; [intros [[-> ->] ->]; reflexivity|intros H; inversion H; auto].
Qed.

Lemma gkey_eqb_refl a : gkey_eqb a a = true.
Proof. apply gkey_eqb_eq. reflexivity. Qed.

Lemma in_distinct k l : In k (distinct l) <-> In k l.
Proof.
  induction l as [|x l IH]; simpl; [tauto|].
  rewrite filter_In, IH, negb_true_iff.
  destruct (gkey_eqb x k) eqn:E.
  - apply gkey_eqb_eq in E. subst. intuition congruence.
  - assert (x <> k) by (intros ->; rewrite gkey_eqb_refl in E; discriminate).
    intuition congruence.
Qed.

Lemma distinct_NoDup l : NoDup (distinct l).
Proof.
  induction l as [|x l IH]; simpl; constructor.
  - intros H. apply filter_In in H. destruct H as [_ H].
    rewrite gkey_eqb_refl in H. discriminate.
  - apply NoDup_filter. exact IH.
Qed.

Lemma groupby_agg_keys rows :
  map agg_key (groupby_agg rows)
  = sort_by leb_date_period_fuel (fun k => k) (distinct (map gkey rows)).
Proof.
  unfold groupby_agg. rewrite map_map. simpl. apply map_id.
Qed.

Lemma in_groupby_agg_keys k rows :
  In k (map agg_key (groupby_agg rows)) <-> In k (map gkey rows).
Proof. rewrite groupby_agg_keys, sort_by_in. apply in_distinct. Qed.

Lemma groupby_agg_NoDup rows : NoDup (map agg_key (groupby_agg rows)).
Proof.
  rewrite groupby_agg_keys.
  eapply Permutation_NoDup; [symmetry; apply sort_by_perm|apply distinct_NoDup].
Qed.

Lemma in_groupby_agg a rows :
  In a (groupby_agg rows) ->
  In (agg_key a) (map gkey rows) /\
  agg_MW a = sum_MW (group_of (agg_key a) rows) /\
  agg_start a = min_start (group_of (agg_key a) rows).
Proof.
  unfold groupby_agg. intros H. apply in_map_iff in H.
  destruct H as (k & <- & Hk). simpl.
  apply (proj1 (sort_by_in _ _ _ _)) in Hk. apply (proj1 (in_distinct _ _)) in Hk.
  split; [exact Hk|]. split; reflexivity.
Qed.

(** *** The inner merge *)

Lemma in_merge_inner m F A :
  In m (merge_inner F A) <->
  exists f a, In f F /\ In a A /\ agg_key f = agg_key a /\
              m = mkMergedGen (agg_key f) (agg_MW f) (agg_MW a)
                              (agg_start f) (agg_start a) (agg_MW a - agg_MW f).
Proof.
  unfold merge_inner. rewrite in_flat_map. split.
  - intros (f & Hf & Hm). apply in_map_iff in Hm. destruct Hm as (a & <- & Ha).
    apply filter_In in Ha. destruct Ha as [Ha Hk]. apply gkey_eqb_eq in Hk.
    exists f, a. auto.
  - intros (f & a & Hf & Ha & Hk & ->). exists f. split; [exact Hf|].
    apply in_map_iff. exists a. split; [reflexivity|].
    apply filter_In. split; [exact Ha|]. apply gkey_eqb_eq. exact Hk.
Qed.

Lemma filter_key_at_most_one k A :
  NoDup (map agg_key A) ->
  filter (fun a => gkey_eqb k (agg_key a)) A = [] \/
  exists a, filter (fun a => gkey_eqb k (agg_key a)) A = [a].
Proof.
  induction A as [|a A IH]; simpl; intros Hnd; [auto|].
  inversion Hnd as [|? ? Ha HA]; subst.
  destruct (gkey_eqb k (agg_key a)) eqn:E; [|auto].
  right. exists a. f_equal. apply DiffFacts.filter_nil. intros x Hx.
  destruct (gkey_eqb k (agg_key x)) eqn:Ex; [|reflexivity].
  exfalso. apply Ha. apply gkey_eqb_eq in E, Ex. rewrite <- E, Ex.
  apply in_map. exact Hx.
Qed.

Lemma merge_inner_keys F A :
  NoDup (map agg_key A) ->
  map group (merge_inner F A)
  = map agg_key (filter (fun f => existsb (fun a => gkey_eqb (agg_key f) (agg_key a)) A) F).
Proof.
  intros HA. unfold merge_inner. induction F as [|f F IH]; [reflexivity|].
  cbn [flat_map filter]. rewrite map_app, IH. clear IH.
  destruct (filter_key_at_most_one (agg_key f) A HA) as [E|(a & E)].
  - rewrite E. simpl.
    assert (existsb (fun a => gkey_eqb (agg_key f) (agg_key a)) A = false) as ->.
    { destruct (existsb _ A) eqn:Ex; [|reflexivity].
      apply existsb_exists in Ex. destruct Ex as (a & Ha & Hk).
      assert (In a (filter (fun a => gkey_eqb (agg_key f) (agg_key a)) A))
        by (apply filter_In; auto).
      rewrite E in H. destruct H. }
    reflexivity.
  - rewrite E. simpl.
    assert (existsb (fun a => gkey_eqb (agg_key f) (agg_key a)) A = true) as ->.
    { apply existsb_exists. exists a.
      assert (In a (filter (fun a => gkey_eqb (agg_key f) (agg_key a)) A))
        by (rewrite E; simpl; auto).
      apply filter_In in H. exact H. }
    reflexivity.
Qed.

(** *** [prepare_wind_solar_merged] *)

Lemma in_add_fuel_column x df :
  In x (add_fuel_column df) <->
  In (base x) df /\ map_psr_to_fuel (psrType (base x)) = Some (fuel x).
Proof.
  unfold add_fuel_column, label_row. rewrite in_flat_map. split.
  - intros (r & Hr & Hx). destruct (map_psr_to_fuel (psrType r)) as [f|] eqn:E;
      [|destruct Hx]. destruct Hx as [<-|[]]. simpl. auto.
  - intros [Hin Hf]. exists (base x). split; [exact Hin|].
    rewrite Hf. destruct x. simpl. auto.
Qed.

(** "The feed has a row of this date, period and fuel". *)
Lemma in_gkeys_add_fuel k df :
  In k (map gkey (add_fuel_column df)) <->
  exists r, In r df /\
            settlementDate r = fst (fst k) /\ settlementPeriod r = snd (fst k) /\
            map_psr_to_fuel (psrType r) = Some (snd k).
Proof.
  rewrite in_map_iff. split.
  - intros (x & <- & Hx). apply in_add_fuel_column in Hx.
    exists (base x). simpl. tauto.
  - intros (r & Hr & Hd & Hp & Hf). exists (mkFuelRow r (snd k)). split.
    + unfold gkey. simpl. rewrite Hd, Hp. destruct k as [[d p] f]. reflexivity.
    + apply in_add_fuel_column. simpl. auto.
Qed.

Lemma in_prepare m F A :
  In m (prepare_wind_solar_merged F A) <->
  In m (merge_inner (groupby_agg (add_fuel_column F))
                    (groupby_agg (add_fuel_column A))).
Proof. unfold prepare_wind_solar_merged. apply sort_by_in. Qed.

Lemma prepare_keys (F A : list GenRow) :
  (forall k,
      In k (map group (prepare_wind_solar_merged F A)) <->
      (exists r, In r F /\
                 settlementDate r = fst (fst k) /\ settlementPeriod r = snd (fst k) /\
                 map_psr_to_fuel (psrType r) = Some (snd k)) /\
      (exists r, In r A /\
                 settlementDate r = fst (fst k) /\ settlementPeriod r = snd (fst k) /\
                 map_psr_to_fuel (psrType r) = Some (snd k))) /\
  NoDup (map group (prepare_wind_solar_merged F A)).
Proof.
  split.
  - intros k. rewrite <- !in_gkeys_add_fuel, <- !in_groupby_agg_keys.
    rewrite !in_map_iff. setoid_rewrite in_prepare.
    setoid_rewrite in_merge_inner. split.
    + intros (m & <- & f & a & Hf & Ha & Hk & ->). simpl. split.
      * exists f. auto.
      * exists a. auto.
    + intros [(f & Hkf & Hf) (a & Hka & Ha)].
      eexists. split; [|exists f, a; repeat split; eauto; congruence].
      simpl. exact Hkf.
  - unfold prepare_wind_solar_merged.
    eapply Permutation_NoDup.
    + apply Permutation_map. symmetry. apply sort_by_perm.
    + rewrite merge_inner_keys by apply groupby_agg_NoDup.
      apply DiffMoreFacts.NoDup_map_filter, groupby_agg_NoDup.
Qed.

(** X19: [prepare_wind_solar_merged] returns exactly one row for every
    (settlementDate, settlementPeriod, fuel) that has a labelled row in
    both the forecast and the actuals, and no other row. *)
Theorem X19_merged_keys (F A : list GenRow) :
  (forall k,
      In k (map group (prepare_wind_solar_merged F A)) <->
      (exists r, In r F /\
                 settlementDate r = fst (fst k) /\ settlementPeriod r = snd (fst k) /\
                 map_psr_to_fuel (psrType r) = Some (snd k)) /\
      (exists r, In r A /\
                 settlementDate r = fst (fst k) /\ settlementPeriod r = snd (fst k) /\
                 map_psr_to_fuel (psrType r) = Some (snd k))) /\
  NoDup (map group (prepare_wind_solar_merged F A)).
Proof. apply prepare_keys. Qed.

Lemma fold_left_min_le l :
  forall x, fold_left Z.min l x <= x /\ Forall (fun y => fold_left Z.min l x <= y) l.
Proof.
  induction l as [|y l IH]; intros x; simpl; [split; [lia|constructor]|].
  destruct (IH (Z.min x y)) as [H1 H2]. split; [lia|].
  constructor; [lia|exact H2].
Qed.

Lemma fold_left_min_in l :
  forall x, fold_left Z.min l x = x \/ In (fold_left Z.min l x) l.
Proof.
  induction l as [|y l IH]; intros x; simpl; [auto|].
  destruct (IH (Z.min x y)) as [H|H]; [|auto].
  rewrite H. destruct (Z.min_spec x y) as [[_ ->]|[_ ->]]; auto.
Qed.

Lemma min_start_least g :
  Forall (fun r => min_start g <= startTime_cest (base r)) g /\
  (g <> [] -> exists r, In r g /\ min_start g = startTime_cest (base r)).
Proof.
  unfold min_start. destruct g as [|r g]; simpl; [split; [constructor|congruence]|].
  destruct (fold_left_min_le (map (fun r => startTime_cest (base r)) g)
                             (startTime_cest (base r))) as [H1 H2].
  split.
  - constructor; [exact H1|]. rewrite Forall_map in H2. exact H2.
  - intros _.
    destruct (fold_left_min_in (map (fun r => startTime_cest (base r)) g)
                               (startTime_cest (base r))) as [H|H].
    + exists r. auto.
    + apply in_map_iff in H. destruct H as (x & Hx & Hin). exists x. auto.
Qed.

Lemma prepare_values (F A : list GenRow) :
  Forall (fun m =>
            forecast_MW m = sum_MW (group_of (group m) (add_fuel_column F)) /\
            actual_MW m = sum_MW (group_of (group m) (add_fuel_column A)) /\
            diff_MW m = actual_MW m - forecast_MW m /\
            Forall (fun r => startTime_cest_forecast m <= startTime_cest (base r))
                   (group_of (group m) (add_fuel_column F)) /\
            exists r, In r (group_of (group m) (add_fuel_column F)) /\
                      startTime_cest_forecast m = startTime_cest (base r))
         (prepare_wind_solar_merged F A).
Proof.
  apply Forall_forall. intros m Hm. apply in_prepare, in_merge_inner in Hm.
  destruct Hm as (f & a & Hf & Ha & Hk & ->). simpl.
  apply in_groupby_agg in Hf. destruct Hf as (Hkf & Hsf & Hmf).
  apply in_groupby_agg in Ha. destruct Ha as (Hka & Hsa & Hma).
  rewrite Hsf, Hsa, Hmf, <- Hk.
  split; [reflexivity|]. split; [reflexivity|]. split; [reflexivity|].
  destruct (min_start_least (group_of (agg_key f) (add_fuel_column F))) as [H1 H2].
  split; [exact H1|]. apply H2.
  apply in_map_iff in Hkf. destruct Hkf as (x & Hx & Hin).
  intros Hnil.
  assert (In x (group_of (agg_key f) (add_fuel_column F))) as Hg.
  { apply filter_In. split; [exact Hin|]. apply gkey_eqb_eq. exact Hx. }
  rewrite Hnil in Hg. destruct Hg.
Qed.

(** The fixtures merged: Solar before Wind, the two wind forecasts
    added up, the missing solar actual counted as 0, period 2 dropped for
    want of a forecast, the unknown fuel ignored. *)
Lemma prepare_example :
  prepare_wind_solar_merged forecast_example actuals_example
  = [ mkMergedGen ("2025-11-11"%string, 1, Solar) 20 0 3600 3600 (-20);
      mkMergedGen ("2025-11-11"%string, 1, Wind) 150 120 3600 3600 (-30) ].
Proof. vm_compute. reflexivity. Qed.

(** *** Totals *)

Lemma abs_total_nonneg rows : 0 <= abs_total rows.
Proof.
  induction rows as [|r rows IH]; simpl; [lia|].
  destruct (quantity (base r)); lia.
Qed.




Lemma column_sum_perm {X} (f : X -> Z) l l' :
  Permutation l l' -> column_sum f l = column_sum f l'.
Proof. induction 1; simpl; lia. Qed.










(** *** The order of the merged frame *)

Lemma string_compare_refl s : String.compare s s = Eq.
Proof.
  pose proof (String.compare_antisym s s) as H.
  destruct (String.compare s s); simpl in H; congruence.
Qed.

Lemma leb_date_fuel_period_total a b :
  leb_date_fuel_period a b = false -> leb_date_fuel_period b a = true.
Proof.
  destruct a as [[da pa] fa], b as [[db pb] fb]. unfold leb_date_fuel_period.
  simpl. rewrite (String.compare_antisym db da).
  destruct (String.compare da db) eqn:E; simpl; try congruence.
  destruct fa, fb; simpl; try congruence; intros H; apply Z.leb_gt in H;
    apply Z.leb_le; lia.
Qed.

Lemma leb_date_fuel_period_spec a b :
  leb_date_fuel_period a b = true <->
  String.ltb (fst (fst a)) (fst (fst b)) = true \/
  (fst (fst a) = fst (fst b) /\
   ((snd a = Solar /\ snd b = Wind) \/
    (snd a = snd b /\ snd (fst a) <= snd (fst b)))).
Proof.
  destruct a as [[da pa] fa], b as [[db pb] fb].
  unfold leb_date_fuel_period, String.ltb. simpl.
  destruct (String.compare da db) eqn:E.
  - apply String.compare_eq_iff in E. subst db.
    destruct fa, fb; simpl; rewrite ?Z.leb_le;
      split; intros H; try tauto; try discriminate;
      try (right; split; [reflexivity|]; tauto);
      try (destruct H as [H|[_ [[H1 H2]|[H1 H2]]]]; congruence).
  - split; auto.
  - split; [discriminate|]. intros [H|[H _]]; [discriminate|].
    subst db. rewrite string_compare_refl in E. discriminate.
Qed.

(** X21: the frame [prepare_wind_solar_merged] returns is ordered by
    settlementDate, then fuel (Solar before Wind), then settlementPeriod:
    each row is at most its successor in that order. *)
Theorem X21_merged_order (F A : list GenRow) :
  Sorted (fun a b => leb_date_fuel_period (group a) (group b) = true)
         (prepare_wind_solar_merged F A) /\
  (forall a b,
      leb_date_fuel_period a b = true <->
      String.ltb (fst (fst a)) (fst (fst b)) = true \/
      (fst (fst a) = fst (fst b) /\
       ((snd a = Solar /\ snd b = Wind) \/
        (snd a = snd b /\ snd (fst a) <= snd (fst b))))).
Proof.
  split; [|apply leb_date_fuel_period_spec].
  unfold prepare_wind_solar_merged.
  apply sort_by_sorted. apply leb_date_fuel_period_total.
Qed.

(** *** [split_wind_solar] *)

Lemma filter_partition_perm {X} (p q : X -> bool) l :
  (forall x, q x = negb (p x)) ->
  Permutation (filter p l ++ filter q l) l.
Proof.
  intros Hpq. induction l as [|x l IH]; simpl; [reflexivity|].
  rewrite Hpq. destruct (p x); simpl.
  - constructor. exact IH.
  - rewrite <- Permutation_middle. constructor. exact IH.
Qed.

(** X22: [split_wind_solar] loses and duplicates nothing: the Wind frame
    and the Solar frame together hold each row of the merged frame once,
    each frame only rows of its own fuel, in the merged frame's order. *)
Theorem X22_split_is_a_partition (merged_df : list MergedGen) :
  Permutation (fst (split_wind_solar merged_df) ++ snd (split_wind_solar merged_df))
              merged_df /\
  Forall (fun m => snd (group m) = Wind) (fst (split_wind_solar merged_df)) /\
  Forall (fun m => snd (group m) = Solar) (snd (split_wind_solar merged_df)) /\
  (List.length (fst (split_wind_solar merged_df))
   + List.length (snd (split_wind_solar merged_df)) = List.length merged_df)%nat.
Proof.
  unfold split_wind_solar. simpl.
  assert (Hperm : Permutation
            (filter (fun m => fuel_eqb (snd (group m)) Wind) merged_df
             ++ filter (fun m => fuel_eqb (snd (group m)) Solar) merged_df)
            merged_df).
  { apply filter_partition_perm. intros x. destruct (snd (group x)); reflexivity. }
  split; [exact Hperm|]. split; [|split].
  - apply Forall_forall. intros m Hm. apply filter_In in Hm.
    apply fuel_eqb_eq. tauto.
  - apply Forall_forall. intros m Hm. apply filter_In in Hm.
    apply fuel_eqb_eq. tauto.
  - rewrite <- length_app. apply Permutation_length. exact Hperm.
Qed.

(** *** The local day of [run_part2_wind_solar] *)

Lemma add_fuel_column_app l1 l2 :
  add_fuel_column (l1 ++ l2) = add_fuel_column l1 ++ add_fuel_column l2.
Proof. unfold add_fuel_column. apply flat_map_app. Qed.

Lemma group_of_label_row_other (q : Z -> bool) k r :
  q (settlementPeriod r) <> q (snd (fst k)) ->
  group_of k (label_row r) = [].
Proof.
  intros Hq. unfold group_of, label_row.
  destruct (map_psr_to_fuel (psrType r)) as [f|]; [|reflexivity].
  simpl. destruct (gkey_eqb (gkey (mkFuelRow r f)) k) eqn:E; [|reflexivity].
  apply gkey_eqb_eq in E. subst k. simpl in Hq. congruence.
Qed.

Lemma group_of_app k l1 l2 : group_of k (l1 ++ l2) = group_of k l1 ++ group_of k l2.
Proof. apply filter_app. Qed.

Lemma group_of_filter_period (q : Z -> bool) k l :
  group_of k (add_fuel_column (filter (fun r => q (settlementPeriod r)) l))
  = if q (snd (fst k)) then group_of k (add_fuel_column l) else [].
Proof.
  induction l as [|r l IH]; [destruct (q (snd (fst k))); reflexivity|].
  cbn [filter]. destruct (q (settlementPeriod r)) eqn:Er.
  - change (add_fuel_column (r :: ?x)) with (label_row r ++ add_fuel_column x).
    rewrite !group_of_app, IH.
    destruct (q (snd (fst k))) eqn:Ek; [reflexivity|].
    rewrite (group_of_label_row_other q); [reflexivity|congruence].
  - rewrite IH. destruct (q (snd (fst k))) eqn:Ek; [|reflexivity].
    change (add_fuel_column (r :: ?x)) with (label_row r ++ add_fuel_column x).
    rewrite group_of_app, (group_of_label_row_other q); [reflexivity|congruence].
Qed.

Lemma group_of_local_day k P C :
  group_of k (add_fuel_column (local_day P C))
  = if (snd (fst k) =? 47) || (snd (fst k) =? 48)
    then group_of k (add_fuel_column P)
    else if (1 <=? snd (fst k)) && (snd (fst k) <=? 46)
         then group_of k (add_fuel_column C)
         else [].
Proof.
  unfold local_day. rewrite add_fuel_column_app, group_of_app.
  rewrite (group_of_filter_period (fun p => (p =? 47) || (p =? 48)) k P).
  rewrite (group_of_filter_period (fun p => (1 <=? p) && (p <=? 46)) k C).
  destruct (snd (fst k) =? 47) eqn:E1; [apply Z.eqb_eq in E1|];
    [|destruct (snd (fst k) =? 48) eqn:E2; [apply Z.eqb_eq in E2|]]; simpl.
  - assert ((1 <=? snd (fst k)) && (snd (fst k) <=? 46) = false) as ->.
    { rewrite E1. reflexivity. }
    apply app_nil_r.
  - assert ((1 <=? snd (fst k)) && (snd (fst k) <=? 46) = false) as ->.
    { rewrite E2. reflexivity. }
    apply app_nil_r.
  - reflexivity.
Qed.

Lemma select_day {X} p (a b c : X) :
  (p = 47 \/ p = 48) \/ 1 <= p <= 46 ->
  (if (p =? 47) || (p =? 48) then a
   else if (1 <=? p) && (p <=? 46) then b else c)
  = if 47 <=? p then a else b.
Proof.
  intros H.
  destruct (Z.eqb_spec p 47), (Z.eqb_spec p 48), (Z.leb_spec 1 p),
    (Z.leb_spec p 46), (Z.leb_spec 47 p); simpl; try reflexivity; lia.
Qed.

(** X23: every row [run_part2_wind_solar] returns has a settlement
    period from 1 to 48; for periods 47 and 48 its forecast and actual
    totals are sums over the previous day's responses only, for periods 1
    to 46 over the current day's responses only. *)
Theorem X23_local_day_sources
    (df_fore_prev df_fore_curr df_act_prev df_act_curr : list GenRow) :
  Forall (fun m =>
            let p := snd (fst (group m)) in
            1 <= p <= 48 /\
            forecast_MW m
            = sum_MW (group_of (group m)
                        (add_fuel_column (if 47 <=? p then df_fore_prev
                                          else df_fore_curr))) /\
            actual_MW m
            = sum_MW (group_of (group m)
                        (add_fuel_column (if 47 <=? p then df_act_prev
                                          else df_act_curr))))
         (fst (run_part2_wind_solar df_fore_prev df_fore_curr df_act_prev df_act_curr)
          ++ snd (run_part2_wind_solar df_fore_prev df_fore_curr
                                       df_act_prev df_act_curr)).
Proof.
  apply Forall_forall. intros m Hm.
  assert (Hin : In m (prepare_wind_solar_merged
                        (local_day df_fore_prev df_fore_curr)
                        (local_day df_act_prev df_act_curr))).
  { unfold run_part2_wind_solar, split_wind_solar in Hm. simpl in Hm.
    apply in_app_or in Hm. destruct Hm as [Hm|Hm]; apply filter_In in Hm; tauto. }
  pose proof (prepare_values (local_day df_fore_prev df_fore_curr)
                                (local_day df_act_prev df_act_curr)) as Hv.
  rewrite Forall_forall in Hv. destruct (Hv m Hin) as (Hf & Ha & _).
  assert (Hk : In (group m)
                 (map group (prepare_wind_solar_merged
                               (local_day df_fore_prev df_fore_curr)
                               (local_day df_act_prev df_act_curr))))
    by (apply in_map; exact Hin).
  apply (proj1 (prepare_keys _ _)) in Hk.
  destruct Hk as [(r & Hr & _ & Hp & _) _].
  assert (Hrange : (snd (fst (group m)) = 47 \/ snd (fst (group m)) = 48) \/
                   1 <= snd (fst (group m)) <= 46).
  { rewrite <- Hp. unfold local_day in Hr. apply in_app_or in Hr.
    destruct Hr as [Hr|Hr]; apply filter_In in Hr; destruct Hr as [_ Hq].
    - left. apply orb_true_iff in Hq. rewrite !Z.eqb_eq in Hq. exact Hq.
    - right. apply andb_true_iff in Hq. rewrite !Z.leb_le in Hq. exact Hq. }
  rewrite group_of_local_day in Hf, Ha. cbv zeta.
  rewrite (select_day _ _ _ _ Hrange) in Hf.
  rewrite (select_day _ _ _ _ Hrange) in Ha.
  split; [lia|]. rewrite Hf, Ha.
  destruct (47 <=? snd (fst (group m))); split; reflexivity.
Qed.

(** *** The order of settlement periods *)

Lemma to_int_proper z :
  Z.to_int z <> Decimal.Pos Decimal.Nil /\ Z.to_int z <> Decimal.Neg Decimal.Nil.
Proof.
  destruct z as [|q|q]; simpl; split; try discriminate;
    intros H; inversion H as [H'];
    exact (DecimalPos.Unsigned.to_uint_nonnil q H').
Qed.

(** [str] never gives two integers the same text. *)
Lemma str_inj a b : str a = str b -> a = b.
Proof.
  unfold str. intros H.
  destruct (to_int_proper a) as [Ha1 Ha2]. destruct (to_int_proper b) as [Hb1 Hb2].
  pose proof (NilZero.isi (Z.to_int a) Ha1 Ha2) as Ea.
  pose proof (NilZero.isi (Z.to_int b) Hb1 Hb2) as Eb.
  rewrite H in Ea. rewrite Ea in Eb. inversion Eb as [E].
  rewrite <- (DecimalZ.of_to a), <- (DecimalZ.of_to b), E. reflexivity.
Qed.

Lemma order_index_none order label :
  ~ In label order -> order_index order label = None.
Proof.
  induction order as [|sp rest IH]; simpl; intros H; [reflexivity|].
  rewrite IH by tauto.
  destruct (String.eqb_spec sp label); [|reflexivity]. exfalso. tauto.
Qed.

Lemma sp_sort_key_known :
  forallb (fun p => sp_sort_key p =? sp_sort_key_closed p)
          (map Z.of_nat (seq 1 48)) = true.
Proof. vm_compute. reflexivity. Qed.

Lemma sp_sort_key_is_closed p : sp_sort_key p = sp_sort_key_closed p.
Proof.
  destruct (Z_le_dec 1 p) as [H1|H1]; [destruct (Z_le_dec p 48) as [H2|H2]|].
  - pose proof sp_sort_key_known as H. rewrite forallb_forall in H.
    apply Z.eqb_eq, H. apply in_map_iff. exists (Z.to_nat p).
    split; [lia|]. apply in_seq. lia.
  - unfold sp_sort_key, sp_sort_key_closed.
    rewrite order_index_none.
    + destruct (Z.eqb_spec p 47), (Z.eqb_spec p 48), (Z.leb_spec 1 p),
        (Z.leb_spec p 46); simpl; try reflexivity; lia.
    + unfold settlement_period_order. intros Hin. apply in_map_iff in Hin.
      destruct Hin as (q & Hq & Hin). apply str_inj in Hq. subst q.
      apply in_app_or in Hin. destruct Hin as [[H|[H|[]]]|Hin]; try lia.
      apply in_map_iff in Hin. destruct Hin as (n & Hn & Hin).
      apply in_seq in Hin. lia.
  - unfold sp_sort_key, sp_sort_key_closed.
    rewrite order_index_none.
    + destruct (Z.eqb_spec p 47), (Z.eqb_spec p 48), (Z.leb_spec 1 p),
        (Z.leb_spec p 46); simpl; try reflexivity; lia.
    + unfold settlement_period_order. intros Hin. apply in_map_iff in Hin.
      destruct Hin as (q & Hq & Hin). apply str_inj in Hq. subst q.
      apply in_app_or in Hin. destruct Hin as [[H|[H|[]]]|Hin]; try lia.
      apply in_map_iff in Hin. destruct Hin as (n & Hn & Hin).
      apply in_seq in Hin. lia.
Qed.

(** X24: the sort key the Task 2 table gives a settlement period is the
    period's place in the local-day order 47, 48, 1, ..., 46; every other
    integer gets the key 48 and so sorts after all known periods.  The
    order holds the labels of exactly the periods 1 to 48, each once. *)
Theorem X24_sp_sort_key (p : Z) :
  sp_sort_key p
  = (if p =? 47 then 0
     else if p =? 48 then 1
     else if (1 <=? p) && (p <=? 46) then p + 1
     else 48) /\
  (In (str p) settlement_period_order <-> 1 <= p <= 48) /\
  NoDup settlement_period_order /\
  List.length settlement_period_order = 48%nat.
Proof.
  split; [apply sp_sort_key_is_closed|]. split; [|split; [|reflexivity]].
  - unfold settlement_period_order. rewrite in_map_iff. split.
    + intros (q & Hq & Hin). apply str_inj in Hq. subst q.
      apply in_app_or in Hin. destruct Hin as [[H|[H|[]]]|Hin]; try lia.
      apply in_map_iff in Hin. destruct Hin as (n & Hn & Hin).
      apply in_seq in Hin. lia.
    + intros Hp. exists p. split; [reflexivity|].
      apply in_or_app.
      destruct (Z.eq_dec p 47) as [->|H47]; [left; simpl; auto|].
      destruct (Z.eq_dec p 48) as [->|H48]; [left; simpl; auto|].
      right. apply in_map_iff. exists (Z.to_nat p). split; [lia|].
      apply in_seq. lia.
  - unfold settlement_period_order.
    apply Finite.Injective_map_NoDup; [intros a b; apply str_inj|].
    apply NoDup_app.
    + repeat constructor; simpl; intuition lia.
    + apply Finite.Injective_map_NoDup; [intros a b; lia|apply seq_NoDup].
    + intros a [H|[H|[]]] Hin; subst a; apply in_map_iff in Hin;
        destruct Hin as (n & Hn & Hin); apply in_seq in Hin; lia.
Qed.

Lemma Sorted_weaken {X} (R R' : X -> X -> Prop) l :
  (forall a b, R a b -> R' a b) -> Sorted R l -> Sorted R' l.
Proof.
  intros HR. induction 1 as [|x l Hs IH Hx]; constructor; [exact IH|].
  destruct Hx; constructor. apply HR. assumption.
Qed.

(** X25: [plot_forecast_vs_actual_with_table] draws nothing for an empty
    frame, whatever [x_axis] is; for a frame with rows it raises a
    ValueError when [x_axis] is neither of the two axes, and otherwise
    draws all the rows once each, ordered by the sort key of their
    settlement period, or by their start time. *)
Theorem X25_plot_outcome (df : list MergedGen) (x_axis : string) :
  (df = [] -> plot_forecast_vs_actual_with_table df x_axis = NoData) /\
  (df <> [] -> x_axis <> "settlementPeriod"%string ->
   x_axis <> "startTime_cest"%string ->
   plot_forecast_vs_actual_with_table df x_axis = ValueError) /\
  (df <> [] ->
   exists rows,
     plot_forecast_vs_actual_with_table df "settlementPeriod" = Drawn rows /\
     Permutation rows df /\
     Sorted (fun a b => sp_sort_key (snd (fst (group a)))
                        <= sp_sort_key (snd (fst (group b)))) rows) /\
  (df <> [] ->
   exists rows,
     plot_forecast_vs_actual_with_table df "startTime_cest" = Drawn rows /\
     Permutation rows df /\
     Sorted (fun a b => startTime_cest_forecast a <= startTime_cest_forecast b) rows).
Proof.
  assert (Hleb : forall a b, (a <=? b) = false -> (b <=? a) = true).
  { intros a b H. apply Z.leb_gt in H. apply Z.leb_le. lia. }
  split; [intros ->; reflexivity|]. split; [|split].
  - intros Hne H1 H2. destruct df as [|m df]; [congruence|].
    unfold plot_forecast_vs_actual_with_table.
    apply String.eqb_neq in H1, H2. rewrite H1, H2. reflexivity.
  - intros Hne. destruct df as [|m df]; [congruence|].
    eexists. split; [reflexivity|]. split; [apply sort_by_perm|].
    eapply Sorted_weaken; [|apply (sort_by_sorted Z.leb _ Hleb)].
    intros a b H. apply Z.leb_le. exact H.
  - intros Hne. destruct df as [|m df]; [congruence|].
    eexists. split; [reflexivity|]. split; [apply sort_by_perm|].
    eapply Sorted_weaken; [|apply (sort_by_sorted Z.leb _ Hleb)].
    intros a b H. apply Z.leb_le. exact H.
Qed.

(** X25 at one row and an axis that does not exist. *)
Lemma X25_witness :
  plot_forecast_vs_actual_with_table
    [mkMergedGen ("2025-11-11"%string, 1, Wind) 10 12 0 0 2] "fuel" = ValueError.
Proof.
  apply (proj1 (proj2 (X25_plot_outcome
           [mkMergedGen ("2025-11-11"%string, 1, Wind) 10 12 0 0 2] "fuel")));
    discriminate.
Defined.

(** *** [normalise_mw_column] *)

Lemma rename_data {C} (src new : string) (df : list (string * C)) :
  map snd (map (fun col => (if String.eqb (fst col) src then new else fst col,
                            snd col)) df)
  = map snd df.
Proof. rewrite map_map. reflexivity. Qed.

Lemma rename_has_new {C} (src new : string) (df : list (string * C)) :
  In src (map fst df) ->
  In new (map fst (map (fun col => (if String.eqb (fst col) src then new else fst col,
                                    snd col)) df)).
Proof.
  intros H. apply in_map_iff in H. destruct H as (col & Hc & Hin).
  rewrite map_map. apply in_map_iff. exists col. simpl.
  rewrite Hc, String.eqb_refl. auto.
Qed.

Lemma is_column_iff {C} (c : string) (df : list (string * C)) :
  existsb (String.eqb c) (map fst df) = true <-> In c (map fst df).
Proof.
  rewrite existsb_exists. split.
  - intros (x & Hx & E). apply String.eqb_eq in E. subst. exact Hx.
  - intros H. exists c. split; [exact H|apply String.eqb_refl].
Qed.

(** X26: [normalise_mw_column] raises exactly when none of "quantity",
    "generation", "value" is a column.  Otherwise the frame keeps its
    columns' data and order and has a column named [new_col_name]; and
    when "quantity" is a column it is the one renamed, every other name
    staying as it was. *)
Theorem X26_normalise_mw_column {C : Type} (df : list (string * C))
    (new_col_name : string) :
  (normalise_mw_column df new_col_name = None <->
   forall c, In c candidates -> ~ In c (map fst df)) /\
  (forall df', normalise_mw_column df new_col_name = Some df' ->
               map snd df' = map snd df /\ In new_col_name (map fst df')) /\
  (In "quantity"%string (map fst df) ->
   normalise_mw_column df new_col_name
   = Some (map (fun col => (if String.eqb (fst col) "quantity"
                            then new_col_name else fst col, snd col)) df)).
Proof.
  unfold normalise_mw_column. split; [|split].
  - destruct (find _ candidates) as [src|] eqn:E.
    + split; [discriminate|]. intros H. apply find_some in E.
      destruct E as [Hc Hs]. apply is_column_iff in Hs. exfalso. exact (H src Hc Hs).
    + split; [|reflexivity]. intros _ c Hc Hin.
      pose proof (find_none _ _ E c Hc) as Hn. simpl in Hn.
      apply is_column_iff in Hin. congruence.
  - intros df' H. destruct (find _ candidates) as [src|] eqn:E; [|discriminate].
    apply find_some in E. destruct E as [_ Hs]. apply is_column_iff in Hs.
    inversion H; subst. clear H.
    destruct (String.eqb_spec src new_col_name) as [->|Hne]; simpl.
    + auto.
    + split; [apply rename_data|apply rename_has_new; exact Hs].
  - intros Hq. apply is_column_iff in Hq. unfold candidates. cbn [find].
    rewrite Hq. f_equal.
    destruct (String.eqb_spec "quantity" new_col_name) as [<-|Hne]; simpl;
      [|reflexivity].
    rewrite <- (map_id df) at 1. apply map_ext. intros [n c]. simpl.
    destruct (String.eqb_spec n "quantity"); subst; reflexivity.
Qed.

End Task2Facts.
